(** * faex-vscode: the editor glue around the faex command line tool

    A shallow embedding of the TypeScript sources
    ([types.ts], [utils/config.ts], [analyzer/cli.ts],
    [analyzer/analyzer.ts], [providers/diagnostics.ts] and the code action
    provider of [providers/codeAction.ts]) and the properties the design
    note states about them.

    Conventions.
    - A JavaScript string is a [string]; each [ascii] stands for one UTF-16
      code unit below 256. Character-level routines work on
      [list ascii] (see [chars]).
    - A JavaScript [number] that holds a line, a column or a counter is a [Z].
    - [Set<string>] is [gset string], [Map<string, V>] is [gmap string V].
    - A call that may throw returns an [outcome]. *)

From Stdlib Require Import ZArith Ascii String List Lia.
From stdpp Require Import base decidable option list gmap strings pretty.

Local Open Scope Z_scope.

(** ** Results of calls that may throw *)

Inductive outcome (A : Type) : Type :=
| Returns (a : A)
| Throws.
Arguments Returns {A} a.
Arguments Throws {A}.

(** ** JavaScript strings *)

Module Js.

Definition chars (s : string) : list ascii := list_ascii_of_string s.
Definition str (l : list ascii) : string := string_of_list_ascii l.

Definition dquote : ascii := "034"%char.
Definition squote : ascii := "039"%char.
Definition backslash : ascii := "092"%char.
Definition lf : ascii := "010"%char.

(** White space as [String.prototype.trim] and the regular expression
    class [\s] see it, among the code units below 256: TAB, LF, VT, FF, CR,
    SPACE and NBSP. *)
Definition isSpace (c : ascii) : bool :=
  match c with
  | "009" | "010" | "011" | "012" | "013" | " " | "160" => true
  | _ => false
  end%char.

(** Line terminators, which the regular expression atom [.] refuses. *)
Definition isLineTerminator (c : ascii) : bool :=
  match c with
  | "010" | "013" => true
  | _ => false
  end%char.

(** [startsWith p s]: [p] is a prefix of [s]. *)
Fixpoint startsWith (p s : list ascii) : bool :=
  match p, s with
  | [], _ => true
  | a :: p', b :: s' => Ascii.eqb a b && startsWith p' s'
  | _ :: _, [] => false
  end.

(** [s.indexOf(p)]: the first index at which [p] occurs, [-1] when none. *)
Fixpoint indexOfFrom (p s : list ascii) (i : Z) : Z :=
  if startsWith p s then i
  else match s with
       | [] => -1
       | _ :: s' => indexOfFrom p s' (i + 1)
       end.
Definition indexOf (s p : string) : Z := indexOfFrom (chars p) (chars s) 0.

(** [s.lastIndexOf(p)]: the last index at which [p] occurs, [-1] when none. *)
Fixpoint lastIndexOfFrom (p s : list ascii) (i : Z) : Z :=
  match s with
  | [] => if startsWith p [] then i else -1
  | _ :: s' =>
      let later := lastIndexOfFrom p s' (i + 1) in
      if 0 <=? later then later
      else if startsWith p s then i else -1
  end.
Definition lastIndexOf (s p : string) : Z := lastIndexOfFrom (chars p) (chars s) 0.

(** [s.substring(0, n)] for [0 <= n]. *)
Definition substring0 (s : string) (n : Z) : string :=
  str (take (Z.to_nat n) (chars s)).

Fixpoint dropSpaces (l : list ascii) : list ascii :=
  match l with
  | c :: l' => if isSpace c then dropSpaces l' else l
  | [] => []
  end.

(** [s.trim()] *)
Definition trimChars (l : list ascii) : list ascii :=
  reverse (dropSpaces (reverse (dropSpaces l))).
Definition trim (s : string) : string := str (trimChars (chars s)).

(** [s.endsWith(p)] *)
Definition endsWith (s p : string) : bool :=
  startsWith (reverse (chars p)) (reverse (chars s)).

Definition jsLength (s : string) : Z := Z.of_nat (String.length s).

(** [xs.join(sep)] *)
Fixpoint join (sep : string) (xs : list string) : string :=
  match xs with
  | [] => ""
  | [x] => x
  | x :: rest => x +:+ sep +:+ join sep rest
  end.

(** [s.replace(/p/g, r)] for a pattern [p] that is a literal, non-empty
    text: the occurrences are taken from the left and do not overlap.
    [skip] counts the code units of an occurrence still to pass. *)
Fixpoint replaceAllFrom (p r s : list ascii) (skip : nat) : list ascii :=
  match s with
  | [] => []
  | c :: s' =>
      match skip with
      | S k => replaceAllFrom p r s' k
      | O =>
          if startsWith p s
          then r ++ replaceAllFrom p r s' (Nat.pred (length p))
          else c :: replaceAllFrom p r s' O
      end
  end.
Definition replaceAll (s p r : string) : string :=
  str (replaceAllFrom (chars p) (chars r) (chars s) O).

End Js.

(** ** [types.ts]: the data model *)

Record ExceptionLocation := {
  loc_file : string;
  loc_line : Z;
  loc_column : Z;
  exceptionClass : string;
  inFunction : option string;
}.

Record EndpointInfo := {
  file : string;
  line : Z;
  column : Z;
  functionName : string;
  method : string;
  path : string;
  decoratorLine : Z;
  exceptionsLine : option Z;
  declaredExceptions : list string;
  detectedExceptions : list ExceptionLocation;
  _undeclaredExceptions : option (list ExceptionLocation);
}.

(** [getUndeclaredExceptions]: an array, also the empty one, is truthy, so
    the test [if (endpoint._undeclaredExceptions)] asks whether the field
    is there. *)
Definition getUndeclaredExceptions (endpoint : EndpointInfo)
  : list ExceptionLocation :=
  match _undeclaredExceptions endpoint with
  | Some fromCli => fromCli
  | None =>
      let declaredSet : gset string :=
        list_to_set (declaredExceptions endpoint) in
      filter (λ exc, exceptionClass exc ∉ declaredSet)
             (detectedExceptions endpoint)
  end.

Definition getUnusedDeclarations (endpoint : EndpointInfo) : list string :=
  let detectedSet : gset string :=
    list_to_set (exceptionClass <$> detectedExceptions endpoint) in
  filter (λ exc, exc ∉ detectedSet) (declaredExceptions endpoint).

Definition hasIssues (endpoint : EndpointInfo) : bool :=
  bool_decide (0 < Z.of_nat (length (getUndeclaredExceptions endpoint))).

Record AnalysisError := {
  err_file : string;
  err_line : option Z;
  message : string;
}.

Record AnalysisResult := {
  endpoints : list EndpointInfo;
  errors : list AnalysisError;
}.

(** ** [analyzer/cli.ts]: what the tool prints *)

Record FaexException := {
  fx_class : string;
  fx_file : string;
  fx_line : Z;
  in_function : option string;
}.

Record FaexEndpoint := {
  fe_file : string;
  fe_line : Z;
  fe_function : string;
  fe_method : string;
  fe_path : string;
  declared_exceptions : list string;
  undeclared_exceptions : list FaexException;
}.

Record FaexJsonOutput := {
  out_endpoints : list FaexEndpoint;
  out_errors : list string;
}.

(** ** [analyzer/analyzer.ts]: [convertEndpoint] *)

(** [exc.in_function || undefined]: [null] and the empty string are falsy. *)
Definition orUndefined (s : option string) : option string :=
  match s with
  | Some EmptyString => None
  | other => other
  end.

Definition convertException (exc : FaexException) : ExceptionLocation :=
  {| loc_file := fx_file exc;
     loc_line := fx_line exc;
     loc_column := 0;
     exceptionClass := fx_class exc;
     inFunction := orUndefined (in_function exc) |}.

Definition convertEndpoint (faexEndpoint : FaexEndpoint) : EndpointInfo :=
  {| file := fe_file faexEndpoint;
     line := fe_line faexEndpoint;
     column := 0;
     functionName := fe_function faexEndpoint;
     method := fe_method faexEndpoint;
     path := fe_path faexEndpoint;
     decoratorLine := fe_line faexEndpoint;
     exceptionsLine := None;
     declaredExceptions := declared_exceptions faexEndpoint;
     detectedExceptions := [];
     _undeclaredExceptions :=
       Some (convertException <$> undeclared_exceptions faexEndpoint) |}.

(** ** The editor's documents and edits *)

(** A [vscode.TextDocument], as far as the code reads it: its lines,
    without their terminators. *)
Definition TextDocument := list string.

Definition lineCount (document : TextDocument) : Z :=
  Z.of_nat (length document).

(** [document.lineAt(n).text]; the editor throws on a line that is not
    one of the document's ([None]). *)
Definition lineAt (document : TextDocument) (n : Z) : option string :=
  if n <? 0 then None else document !! Z.to_nat n.

(** What a [vscode.WorkspaceEdit] collects for the one document. *)
Inductive TextEdit :=
| Replace (startLine startCol endLine endCol : Z) (newText : string)
| Insert (atLine atCol : Z) (newText : string).

Definition WorkspaceEdit := list TextEdit.

(** ** [providers/codeAction.ts]: [findDecoratorEndLine] *)

(** The three locals of the scan. [stringChar] is [None] for the empty
    string it starts with. *)
Record ScanState := {
  parenCount : Z;
  inString : bool;
  stringChar : option ascii;
}.

Definition scanStart : ScanState :=
  {| parenCount := 0; inString := false; stringChar := None |}.

(** One turn of the inner loop either goes on with new locals or
    leaves the function through [return line]. *)
Inductive ScanStep :=
| Going (st : ScanState)
| Found.

Definition isQuote (c : ascii) : bool :=
  Ascii.eqb c Js.dquote || Ascii.eqb c Js.squote.

(** [prevChar !== "\\"], where [prevChar] is [None] at column 0. *)
Definition notBackslash (prevChar : option ascii) : bool :=
  match prevChar with
  | Some p => negb (Ascii.eqb p Js.backslash)
  | None => true
  end.

Definition sameChar (char : ascii) (stringChar : option ascii) : bool :=
  match stringChar with
  | Some q => Ascii.eqb char q
  | None => false
  end.

Definition scanChar (prevChar : option ascii) (char : ascii) (st : ScanState)
  : ScanStep :=
  if isQuote char && notBackslash prevChar then
    if negb (inString st) then
      Going {| parenCount := parenCount st; inString := true;
               stringChar := Some char |}
    else if sameChar char (stringChar st) then
      Going {| parenCount := parenCount st; inString := false;
               stringChar := stringChar st |}
    else Going st
  else if inString st then Going st
  else if Ascii.eqb char "("%char then
    Going {| parenCount := parenCount st + 1; inString := inString st;
             stringChar := stringChar st |}
  else if Ascii.eqb char ")"%char then
    let parenCount' := parenCount st - 1 in
    if parenCount' =? 0 then Found
    else Going {| parenCount := parenCount'; inString := inString st;
                  stringChar := stringChar st |}
  else Going st.

(** The inner loop over the code units of one line. *)
Fixpoint scanText (prevChar : option ascii) (text : list ascii)
    (st : ScanState) : ScanStep :=
  match text with
  | [] => Going st
  | char :: rest =>
      match scanChar prevChar char st with
      | Found => Found
      | Going st' => scanText (Some char) rest st'
      end
  end.

(** The outer loop over the lines [line], [line + 1], ... that are left;
    [None] when it runs off the end of the document. *)
Fixpoint scanLines (lines : list string) (line : Z) (st : ScanState)
  : option Z :=
  match lines with
  | [] => None
  | text :: rest =>
      match scanText None (Js.chars text) st with
      | Found => Some line
      | Going st' => scanLines rest (line + 1) st'
      end
  end.

(** With a negative [startLine] the loop is entered ([startLine <
    document.lineCount]) and [lineAt] throws. *)
Definition findDecoratorEndLine (document : TextDocument) (startLine : Z)
  : outcome Z :=
  if startLine <? 0 then Throws
  else
    match scanLines (drop (Z.to_nat startLine) document) startLine scanStart with
    | Some line => Returns line
    | None => Returns startLine
    end.

(** ** The scan as the design note words it

    The note describes the scan in three steps: read the document forward
    from the start line, code unit by code unit; skip what lies inside a
    single- or double-quoted literal, where a quote that follows a
    backslash neither opens nor closes one; follow the depth of the
    parentheses that remain and stop at the first place where the depth is
    back at zero after it has been positive. *)








(** ** Regular expressions

    The part of JavaScript's regular expressions the sources use: a
    sequence of atoms, each one code unit of a class, a greedy star over a
    class, or the end of the input. Matching backtracks as the language
    defines it: a star takes as many code units as it can and gives them
    back one at a time while the rest fails. *)

Module RegExp.

Inductive Atom :=
| One (class : ascii → bool)
| Many (class : ascii → bool)
| AtEnd.

Definition Pattern := list Atom.

Fixpoint many (class : ascii → bool) (rest : list ascii → option nat)
    (s : list ascii) : option nat :=
  match s with
  | c :: s' =>
      if class c then
        match many class rest s' with
        | Some n => Some (S n)
        | None => rest s
        end
      else rest s
  | [] => rest []
  end.

(** [matchAt r s]: the number of code units [r] takes when it matches at
    the start of [s]. *)
Fixpoint matchAt (r : Pattern) (s : list ascii) : option nat :=
  match r with
  | [] => Some O
  | One class :: r' =>
      match s with
      | c :: s' => if class c then S <$> matchAt r' s' else None
      | [] => None
      end
  | Many class :: r' => many class (matchAt r') s
  | AtEnd :: r' =>
      match s with
      | [] => matchAt r' s
      | _ :: _ => None
      end
  end.

(** [s.match(r)] without the [g] flag: the leftmost match, as its index
    and the length of [match[0]]. *)
Fixpoint execFrom (r : Pattern) (s : list ascii) (i : Z) : option (Z * Z) :=
  match matchAt r s with
  | Some n => Some (i, Z.of_nat n)
  | None =>
      match s with
      | [] => None
      | _ :: s' => execFrom r s' (i + 1)
      end
  end.
Definition exec (r : Pattern) (s : string) : option (Z * Z) :=
  execFrom r (Js.chars s) 0.

(** [new RegExp("^" + src + "$").test(s)] for a parsed [src]. *)
Definition testAnchored (r : Pattern) (s : string) : bool :=
  bool_decide (is_Some (matchAt (r ++ [AtEnd]) (Js.chars s))).

Definition isChar (c : ascii) : ascii → bool := Ascii.eqb c.
Definition notChar (c : ascii) : ascii → bool := λ d, negb (Ascii.eqb c d).
(** The atom [.]: any code unit but a line terminator. *)
Definition dot : ascii → bool := λ d, negb (Js.isLineTerminator d).

Definition literal (s : string) : Pattern := (λ c, One (isChar c)) <$> Js.chars s.

(** Characters with a meaning of their own in a pattern's source. *)
Definition isSyntax (c : ascii) : bool :=
  match c with
  | "\" | "^" | "$" | "." | "*" | "+" | "?" | "(" | ")" | "[" | "]"
  | "{" | "}" | "|" => true
  | _ => false
  end%char.

(** The sources [matchGlobPattern] builds from a glob of plain characters,
    [.], [*] and [**] consist of plain characters, [\.], [[^/]*] and [.*].
    [parse] reads those; on any other source it answers [None]: such a
    source is outside this model (the constructor may also throw on it). *)
Fixpoint parse (src : list ascii) : option Pattern :=
  match src with
  | [] => Some []
  | c :: rest =>
      if Ascii.eqb c Js.backslash then
        match rest with
        | d :: rest' =>
            if Ascii.eqb d "."%char then (One (isChar d) ::.) <$> parse rest'
            else None
        | [] => None
        end
      else if Ascii.eqb c "."%char then
        match rest with
        | d :: rest' =>
            if Ascii.eqb d "*"%char then (Many dot ::.) <$> parse rest'
            else None
        | [] => None
        end
      else if Ascii.eqb c "["%char then
        match rest with
        | c1 :: c2 :: c3 :: c4 :: rest' =>
            if Ascii.eqb c1 "^"%char && Ascii.eqb c2 "/"%char
               && Ascii.eqb c3 "]"%char && Ascii.eqb c4 "*"%char
            then (Many (notChar "/"%char) ::.) <$> parse rest'
            else None
        | _ => None
        end
      else if isSyntax c then None
      else (One (isChar c) ::.) <$> parse rest
  end.

End RegExp.

(** ** What a pattern matches *)

(** What it means for a text to match a pattern without an end anchor. *)
Inductive matches : RegExp.Pattern → list ascii → Prop :=
| matches_nil : matches [] []
| matches_one class r c s :
    class c = true → matches r s → matches (RegExp.One class :: r) (c :: s)
| matches_many class r x s :
    Forall (λ c, class c = true) x → matches r s →
    matches (RegExp.Many class :: r) (x ++ s).

Definition isAnchor (a : RegExp.Atom) : bool :=
  match a with
  | RegExp.AtEnd => true
  | _ => false
  end.

Definition anchorFree (r : RegExp.Pattern) : Prop :=
  Forall (λ a, isAnchor a = false) r.

(** ** [utils/config.ts] *)

Record FaexConfig := {
  enable : bool;
  faexPath : string;
  depth : Z;
  ignore : list string;
  exclude : list string;
  validateOnSave : bool;
  validateOnType : bool;
  showCodeLens : bool;
}.

Definition defaultConfig : FaexConfig :=
  {| enable := true; faexPath := "faex"; depth := 3; ignore := [];
     exclude := ["**/tests/**"; "**/test_*.py"];
     validateOnSave := true; validateOnType := false;
     showCodeLens := true |}.

(** The four replacements that turn a glob into a pattern's source. *)
Definition globToRegexSource (pattern : string) : string :=
  let s1 := Js.replaceAll pattern "." (String Js.backslash ".") in
  let s2 := Js.replaceAll s1 "**" "{{GLOBSTAR}}" in
  let s3 := Js.replaceAll s2 "*" "[^/]*" in
  Js.replaceAll s3 "{{GLOBSTAR}}" ".*".

(** [None]: the source built from [pattern] is outside [RegExp.parse]. *)
Definition matchGlobPattern (path pattern : string) : option bool :=
  match RegExp.parse (Js.chars (globToRegexSource pattern)) with
  | Some r => Some (RegExp.testAnchored r path)
  | None => None
  end.

(** The loop of [shouldExcludeFile] over [config.exclude]. *)
Fixpoint matchesAny (relativePath : string) (patterns : list string)
  : option bool :=
  match patterns with
  | [] => Some false
  | pattern :: rest =>
      match matchGlobPattern relativePath pattern with
      | Some true => Some true
      | Some false => matchesAny relativePath rest
      | None => None
      end
  end.

(** [asRelativePath] is the editor's [vscode.workspace.asRelativePath]. *)
Definition shouldExcludeFile (asRelativePath : string → string)
    (filePath : string) (config : FaexConfig) : option bool :=
  let relativePath := asRelativePath filePath in
  matchesAny relativePath (exclude config).

Definition shouldIgnoreException (exceptionClass : string)
    (config : FaexConfig) : bool :=
  bool_decide (exceptionClass ∈ ignore config).

(** ** Globs as the design note words them

    [**] stands for any characters, path separators included, and a single
    [*] for any characters except [/]; every other character stands for
    itself. *)

Inductive GlobToken :=
| GlobStar
| Star
| Plain (c : ascii).

Fixpoint globTokens (pattern : list ascii) : list GlobToken :=
  match pattern with
  | [] => []
  | c :: rest =>
      if Ascii.eqb c "*"%char then
        match rest with
        | d :: rest' =>
            if Ascii.eqb d "*"%char then GlobStar :: globTokens rest'
            else Star :: globTokens rest
        | [] => [Star]
        end
      else Plain c :: globTokens rest
  end.

Inductive globMatches : list GlobToken → list ascii → Prop :=
| glob_nil : globMatches [] []
| glob_plain c ts s :
    globMatches ts s → globMatches (Plain c :: ts) (c :: s)
| glob_star seg ts s :
    Forall (λ c, c ≠ "/"%char) seg →
    globMatches ts s → globMatches (Star :: ts) (seg ++ s)
| glob_globstar seg ts s :
    globMatches ts s → globMatches (GlobStar :: ts) (seg ++ s).

Definition matchesGlob (path pattern : string) : Prop :=
  globMatches (globTokens (Js.chars pattern)) (Js.chars path).

(** ** [providers/codeAction.ts]: [createAddExceptionEdit] *)

(** [[...declared, ...newExceptions.filter((e) => !declared.includes(e))]] *)
Definition allExceptions (declared newExceptions : list string)
  : list string :=
  declared ++ filter (λ e, e ∉ declared) newExceptions.

(** [`exceptions=[${allExceptions.join(", ")}]`] *)
Definition exceptionsText (all : list string) : string :=
  "exceptions=[" +:+ Js.join ", " all +:+ "]".

(** The pattern of [lineText.match]: the word exceptions, white space,
    an equals sign, white space, an opening bracket, any code units but a
    closing bracket, and a closing bracket. *)
Definition exceptionsRegExp : RegExp.Pattern :=
  RegExp.literal "exceptions"
  ++ [RegExp.Many Js.isSpace; RegExp.One (RegExp.isChar "="%char);
      RegExp.Many Js.isSpace; RegExp.One (RegExp.isChar "["%char);
      RegExp.Many (RegExp.notChar "]"%char);
      RegExp.One (RegExp.isChar "]"%char)].

(** [beforeParen.length > 0 && !beforeParen.endsWith(",")] *)
Definition needsComma (endLineText : string) (closingParenIndex : Z) : bool :=
  let beforeParen := Js.trim (Js.substring0 endLineText closingParenIndex) in
  bool_decide (0 < Js.jsLength beforeParen) && negb (Js.endsWith beforeParen ",").

Definition newline : string := String Js.lf "".

Definition createAddExceptionEdit (document : TextDocument)
    (endpoint : EndpointInfo) (newExceptions : list string)
  : outcome WorkspaceEdit :=
  let decoratorLine := decoratorLine endpoint - 1 in
  let allExceptions :=
    allExceptions (declaredExceptions endpoint) newExceptions in
  match exceptionsLine endpoint with
  | Some exceptionsLine =>
      let excLine := exceptionsLine - 1 in
      match lineAt document excLine with
      | None => Throws
      | Some lineText =>
          match RegExp.exec exceptionsRegExp lineText with
          | Some (_, matchLength) =>
              let startCol := Js.indexOf lineText "exceptions" in
              let endCol := startCol + matchLength in
              let newText := exceptionsText allExceptions in
              Returns [Replace excLine startCol excLine endCol newText]
          | None => Returns []
          end
      end
  | None =>
      match findDecoratorEndLine document decoratorLine with
      | Throws => Throws
      | Returns decoratorEndLine =>
          match lineAt document decoratorEndLine with
          | None => Throws
          | Some endLineText =>
              let closingParenIndex := Js.lastIndexOf endLineText ")" in
              if 0 <=? closingParenIndex then
                let insertText :=
                  (if needsComma endLineText closingParenIndex then "," else "")
                  +:+ newline +:+ "    " +:+ exceptionsText allExceptions in
                Returns [Insert decoratorEndLine closingParenIndex insertText]
              else Returns []
          end
      end
  end.

(** The edits [provideCodeActions] offers for one endpoint: one per
    undeclared exception and, when there are several, one that adds all
    of them at once. *)
Definition quickFixEdits (document : TextDocument) (endpoint : EndpointInfo)
  : list (outcome WorkspaceEdit) :=
  let undeclared := getUndeclaredExceptions endpoint in
  match undeclared with
  | [] => []
  | [only] =>
      [createAddExceptionEdit document endpoint [exceptionClass only]]
  | _ =>
      ((λ exc, createAddExceptionEdit document endpoint [exceptionClass exc])
         <$> undeclared)
      ++ [createAddExceptionEdit document endpoint
            (exceptionClass <$> undeclared)]
  end.

(** ** [analyzer/cli.ts]: [runFaexCli]

    The promise [runFaexCli] returns is settled by the handlers it puts on
    the child process. The process is modelled by the events it emits;
    the handlers update the two buffers, the console, the messages shown
    to the user and the promise. *)

Inductive DataEvent :=
| StdoutData (data : string)
| StderrData (data : string).

Inductive ProcessEvent :=
| OnData (d : DataEvent)
| OnClose (code : option Z)
| OnError (errMessage : string).

Record CliRun := {
  stdout : string;
  stderr : string;
  (** [None] while the promise is pending; [Some None] once it is
      resolved with [null]. *)
  resolved : option (option FaexJsonOutput);
  (** the arguments of each [console.error] call, oldest first *)
  consoleErrors : list (string * string);
  (** the texts passed to [vscode.window.showErrorMessage] *)
  shownErrors : list string;
}.

Definition cliStart : CliRun :=
  {| stdout := ""; stderr := ""; resolved := None;
     consoleErrors := []; shownErrors := [] |}.

(** [resolve(v)]: a promise keeps its first value. *)
Definition resolve (v : option FaexJsonOutput) (st : CliRun) : CliRun :=
  {| stdout := stdout st; stderr := stderr st;
     resolved := match resolved st with
                 | Some first => Some first
                 | None => Some v
                 end;
     consoleErrors := consoleErrors st; shownErrors := shownErrors st |}.

Definition consoleError (label text : string) (st : CliRun) : CliRun :=
  {| stdout := stdout st; stderr := stderr st; resolved := resolved st;
     consoleErrors := consoleErrors st ++ [(label, text)];
     shownErrors := shownErrors st |}.

Definition showErrorMessage (text : string) (st : CliRun) : CliRun :=
  {| stdout := stdout st; stderr := stderr st; resolved := resolved st;
     consoleErrors := consoleErrors st;
     shownErrors := shownErrors st ++ [text] |}.

(** [truthy s]: a string is truthy when it is not empty. *)
Definition truthy (s : string) : bool := negb (String.eqb s "").

Section Cli.

(** [JSON.parse], read at the type the cast [as FaexJsonOutput] gives its
    value: [None] when it throws, [Some None] when the value is [null]
    (or another falsy value, which no caller tells from [null]). *)
Variable JSON_parse : string → option (option FaexJsonOutput).

Definition onEvent (st : CliRun) (ev : ProcessEvent) : CliRun :=
  match ev with
  | OnData (StdoutData data) =>
      {| stdout := stdout st +:+ data; stderr := stderr st;
         resolved := resolved st; consoleErrors := consoleErrors st;
         shownErrors := shownErrors st |}
  | OnData (StderrData data) =>
      {| stdout := stdout st; stderr := stderr st +:+ data;
         resolved := resolved st; consoleErrors := consoleErrors st;
         shownErrors := shownErrors st |}
  | OnClose _ =>
      if truthy (stdout st) then
        match JSON_parse (stdout st) with
        | Some result => resolve result st
        | None =>
            resolve None
              (consoleError "Failed to parse faex output:" (stdout st) st)
        end
      else if truthy (stderr st) then
        resolve None (consoleError "faex error:" (stderr st) st)
      else resolve None st
  | OnError errMessage =>
      resolve None
        (showErrorMessage
           ("Failed to run faex: " +:+ errMessage
            +:+ ". Make sure faex is installed (pip install faex)")
           (consoleError "Failed to run faex:" errMessage st))
  end.

(** The state of a run after the process has emitted [events]. *)
Definition runFaexCli (events : list ProcessEvent) : CliRun :=
  foldl onEvent cliStart events.

End Cli.

(** ** [analyzer/analyzer.ts]: [EndpointAnalyzer.analyzeDocument]

    [excluded] is what [shouldExcludeFile] answered and [cliResult] what
    the promise of [runFaexCli] resolved with; the cache goes in and out. *)
Definition emptyAnalysis : AnalysisResult := {| endpoints := []; errors := [] |}.

Definition analyzeDocument (excluded : bool) (fsPath : string)
    (cliResult : option FaexJsonOutput)
    (cache : gmap string (list EndpointInfo))
  : AnalysisResult * gmap string (list EndpointInfo) :=
  if excluded then (emptyAnalysis, cache)
  else
    match cliResult with
    | None => (emptyAnalysis, cache)
    | Some result =>
        let endpoints := convertEndpoint <$> out_endpoints result in
        ({| endpoints := endpoints;
            errors := (λ msg, {| err_file := fsPath; err_line := None;
                                 message := msg |}) <$> out_errors result |},
         <[fsPath := endpoints]> cache)
    end.

(** ** [analyzer/analyzer.ts]: [createDiagnostic] *)

Record Diagnostic := {
  range_line : Z;
  range_startCol : Z;
  range_endCol : Z;
  diag_message : string;
  metadata_endpoint : EndpointInfo;
  metadata_exception : ExceptionLocation;
}.

Definition createDiagnostic (endpoint : EndpointInfo)
    (exception : ExceptionLocation) (document : TextDocument)
  : outcome Diagnostic :=
  let line := loc_line exception - 1 in
  let lineText :=
    if line <? lineCount document then lineAt document line else Some "" in
  match lineText with
  | None => Throws
  | Some lineText =>
      let startCol := Js.indexOf lineText "raise" in
      let endCol :=
        if 0 <=? startCol
        then startCol + Js.jsLength ("raise " +:+ exceptionClass exception)
        else Js.jsLength lineText in
      let message :=
        match inFunction exception with
        | Some f =>
            "Exception '" +:+ exceptionClass exception +:+ "' raised in '"
            +:+ f +:+ "' is not declared in endpoint '"
            +:+ functionName endpoint +:+ "'"
        | None =>
            "Exception '" +:+ exceptionClass exception
            +:+ "' is not declared in endpoint '"
            +:+ functionName endpoint +:+ "'"
        end in
      Returns {| range_line := line;
                 range_startCol := Z.max 0 startCol;
                 range_endCol := Z.max 0 endCol;
                 diag_message := message;
                 metadata_endpoint := endpoint;
                 metadata_exception := exception |}
  end.

(** A loop that pushes the value of each call and stops at the first
    that throws. *)
Fixpoint collect {A : Type} (calls : list (outcome A)) : outcome (list A) :=
  match calls with
  | [] => Returns []
  | Throws :: _ => Throws
  | Returns a :: rest =>
      match collect rest with
      | Returns l => Returns (a :: l)
      | Throws => Throws
      end
  end.

(** ** [providers/diagnostics.ts]: [DiagnosticsManager]

    [analyzeDocument] is an [async] method with one [await]. A call runs
    in two turns of the event loop: [request], from its entry to the
    [await], and [settle], from the moment the awaited analysis has
    fulfilled or rejected to the end of the [finally] block. Between the
    two the call is suspended and its analysis is in flight; [running]
    lists the paths of the suspended calls. A file's [uri] and its
    [fsPath] are one key. *)

Record Manager := {
  diagnosticCollection : gmap string (list Diagnostic);
  endpointCache : gmap string (list EndpointInfo);
  analysisInProgress : gset string;
  running : list string;
}.

Definition managerStart : Manager :=
  {| diagnosticCollection := ∅; endpointCache := ∅;
     analysisInProgress := ∅; running := [] |}.

Definition clearDiagnostics (uri : string) (m : Manager) : Manager :=
  {| diagnosticCollection := delete uri (diagnosticCollection m);
     endpointCache := delete uri (endpointCache m);
     analysisInProgress := analysisInProgress m;
     running := running m |}.

Definition clearAllDiagnostics (m : Manager) : Manager :=
  {| diagnosticCollection := ∅; endpointCache := ∅;
     analysisInProgress := analysisInProgress m;
     running := running m |}.

(** [analyzeDocument], from its entry to [await analyzer.analyzeDocument].
    [excluded] is the answer of [shouldExcludeFile], [None] when that call
    throws and the method ends there. *)
Definition request (config : FaexConfig) (languageId : string)
    (excluded : option bool) (fsPath : string) (m : Manager) : Manager :=
  if negb (enable config) then m
  else if negb (String.eqb languageId "python") then m
  else
    match excluded with
    | None => m
    | Some true => clearDiagnostics fsPath m
    | Some false =>
        if bool_decide (fsPath ∈ analysisInProgress m) then m
        else
          {| diagnosticCollection := diagnosticCollection m;
             endpointCache := endpointCache m;
             analysisInProgress := {[fsPath]} ∪ analysisInProgress m;
             running := fsPath :: running m |}
    end.

(** The diagnostics of the two nested loops over endpoints and their
    undeclared exceptions. *)
Definition diagnosticsFor (result : AnalysisResult) (document : TextDocument)
  : outcome (list Diagnostic) :=
  collect
    (endpoint ← endpoints result;
     (λ exception, createDiagnostic endpoint exception document)
       <$> getUndeclaredExceptions endpoint).

(** The rest of the [try] block, once the analysis has fulfilled with
    [result]: the cache is set first, the collection only when no
    diagnostic threw. *)
Definition publish (fsPath : string) (document : TextDocument)
    (result : AnalysisResult) (m : Manager) : Manager :=
  let cached := <[fsPath := endpoints result]> (endpointCache m) in
  match diagnosticsFor result document with
  | Returns diagnostics =>
      {| diagnosticCollection :=
           <[fsPath := diagnostics]> (diagnosticCollection m);
         endpointCache := cached;
         analysisInProgress := analysisInProgress m;
         running := running m |}
  | Throws =>
      {| diagnosticCollection := diagnosticCollection m;
         endpointCache := cached;
         analysisInProgress := analysisInProgress m;
         running := running m |}
  end.

(** [finally { this.analysisInProgress.delete(fsPath) }], and the call is
    no longer suspended. *)
Fixpoint removeFirst (p : string) (l : list string) : list string :=
  match l with
  | [] => []
  | q :: rest => if String.eqb p q then rest else q :: removeFirst p rest
  end.

Definition finally (fsPath : string) (m : Manager) : Manager :=
  {| diagnosticCollection := diagnosticCollection m;
     endpointCache := endpointCache m;
     analysisInProgress := analysisInProgress m ∖ {[fsPath]};
     running := removeFirst fsPath (running m) |}.

(** [analyzeDocument], from the settling of the awaited analysis to its
    end. Without a suspended call for [fsPath] there is nothing to resume. *)
Definition settle (fsPath : string) (document : TextDocument)
    (analysis : outcome AnalysisResult) (m : Manager) : Manager :=
  if bool_decide (fsPath ∈ running m) then
    finally fsPath
      match analysis with
      | Returns result => publish fsPath document result m
      | Throws => m
      end
  else m.

Inductive ManagerEvent :=
| Request (config : FaexConfig) (languageId : string)
    (excluded : option bool) (fsPath : string)
| Settle (fsPath : string) (document : TextDocument)
    (analysis : outcome AnalysisResult)
| ClearDiagnostics (uri : string)
| ClearAllDiagnostics.

Definition managerStep (m : Manager) (ev : ManagerEvent) : Manager :=
  match ev with
  | Request config languageId excluded fsPath =>
      request config languageId excluded fsPath m
  | Settle fsPath document analysis => settle fsPath document analysis m
  | ClearDiagnostics uri => clearDiagnostics uri m
  | ClearAllDiagnostics => clearAllDiagnostics m
  end.

Definition runManager (events : list ManagerEvent) : Manager :=
  foldl managerStep managerStart events.

(** How many analyses of [fsPath] are in flight. *)
Definition inFlight (fsPath : string) (m : Manager) : nat :=
  length (filter (λ p, p = fsPath) (running m)).

(** ** The locals of the scan, read in the words of the note *)






(** ** What a run was fed *)

(** The text the process wrote to each of its two streams. *)
Definition stdoutOf (chunks : list DataEvent) : string :=
  foldl (λ text d, match d with
                   | StdoutData data => text +:+ data
                   | StderrData _ => text
                   end) "" chunks.

Definition stderrOf (chunks : list DataEvent) : string :=
  foldl (λ text d, match d with
                   | StderrData data => text +:+ data
                   | StdoutData _ => text
                   end) "" chunks.

(** ** The single-flight invariant *)

(** The in-progress set holds exactly the paths of the suspended calls,
    each of them once. *)
Definition singleFlight (m : Manager) : Prop :=
  NoDup (running m) ∧ ∀ p, p ∈ analysisInProgress m ↔ p ∈ running m.

(** ** Sample inputs *)

(** [quoted s] is [s] between double quotes. *)
Definition quoted (s : string) : string :=
  String Js.dquote s +:+ String Js.dquote "".

Definition sampleEndpoint (exceptionsAt : option Z) (declared : list string)
    (fromCli : option (list ExceptionLocation)) : EndpointInfo :=
  {| file := "app/main.py"; line := 1; column := 0;
     functionName := "read_item"; method := "GET"; path := "/x";
     decoratorLine := 1; exceptionsLine := exceptionsAt;
     declaredExceptions := declared; detectedExceptions := [];
     _undeclaredExceptions := fromCli |}.

Definition raisedAt (class : string) (atLine : Z) : ExceptionLocation :=
  {| loc_file := "app/main.py"; loc_line := atLine; loc_column := 0;
     exceptionClass := class; inFunction := None |}.

(** ** Globs, token by token *)

(** The atom each token of a glob ends up as. *)
Definition globAtom (t : GlobToken) : RegExp.Atom :=
  match t with
  | GlobStar => RegExp.Many RegExp.dot
  | Star => RegExp.Many (RegExp.notChar "/"%char)
  | Plain c => RegExp.One (RegExp.isChar c)
  end.

(** The characters of a glob that [matchGlobPattern] is written for:
    the two wildcards, the dot, and whatever has no meaning of its own in
    a regular expression. *)
Definition simpleGlobChar (c : ascii) : bool :=
  negb (RegExp.isSyntax c) || Ascii.eqb c "."%char || Ascii.eqb c "*"%char.

Definition simpleGlob (pattern : string) : Prop :=
  Forall (λ c, simpleGlobChar c = true) (Js.chars pattern).

(** The text of a token list when a dot, a star and a double star are
    written as [dot], [star] and [globstar]: the glob itself and what the
    four replacements make of it. *)
Definition renderToken (dot star globstar : string) (t : GlobToken)
  : list ascii :=
  match t with
  | GlobStar => Js.chars globstar
  | Star => Js.chars star
  | Plain c => if Ascii.eqb c "."%char then Js.chars dot else [c]
  end.

Fixpoint render (dot star globstar : string) (ts : list GlobToken)
  : list ascii :=
  match ts with
  | [] => []
  | t :: rest =>
      renderToken dot star globstar t ++ render dot star globstar rest
  end.

(** Token lists as [globTokens] makes them: no star is a plain
    character, and a single star is followed by a plain character or by
    nothing. *)
Fixpoint tokenized (ts : list GlobToken) : Prop :=
  match ts with
  | [] => True
  | Plain c :: rest => c ≠ "*"%char ∧ tokenized rest
  | GlobStar :: rest => tokenized rest
  | Star :: rest =>
      match rest with
      | [] | Plain _ :: _ => True
      | _ => False
      end ∧ tokenized rest
  end.

Definition plainOk (t : GlobToken) : Prop :=
  match t with
  | Plain c => RegExp.isSyntax c = false ∨ c = "."%char
  | _ => True
  end.

Definition escapedDot : string := String Js.backslash ".".

Ltac not_in_chars :=
  let H := fresh in
  cbn; intros H;
  repeat (apply elem_of_cons in H as [H|H];
          [first [discriminate H
                 |congruence
                 |unfold Js.backslash in H; discriminate H]|]);
  by apply elem_of_nil in H.

(** The atoms a glob stands for. *)
Definition globAtoms (pattern : string) : RegExp.Pattern :=
  globAtom <$> globTokens (Js.chars pattern).

(** ** The lines of an edit *)

(** The line an edit for [endpoint] is computed from, counted from 1. *)
Definition editLine (endpoint : EndpointInfo) : Z :=
  match exceptionsLine endpoint with
  | Some exceptionsLine => exceptionsLine
  | None => decoratorLine endpoint
  end.

(** An edit that touches one line of the document, within its text. *)
Definition editInDocument (document : TextDocument) (edit : TextEdit) : Prop :=
  match edit with
  | Insert atLine atCol _ =>
      ∃ text, lineAt document atLine = Some text
              ∧ 0 ≤ atCol < Js.jsLength text
  | Replace startLine startCol endLine endCol _ =>
      startLine = endLine
      ∧ ∃ text, lineAt document startLine = Some text
                ∧ 0 ≤ startCol ≤ endCol ∧ endCol ≤ Js.jsLength text
  end.

(** ** [types.ts]: the helpers over a result *)

Definition getEndpointsWithIssues (result : AnalysisResult)
  : list EndpointInfo :=
  filter (λ endpoint, hasIssues endpoint = true) (endpoints result).

Definition getTotalUndeclared (result : AnalysisResult) : Z :=
  foldl (λ sum endpoint,
           sum + Z.of_nat (length (getUndeclaredExceptions endpoint)))
        0 (endpoints result).

Definition resultHasIssues (result : AnalysisResult) : bool :=
  existsb hasIssues (endpoints result).

(** ** [analyzer/analyzer.ts]: the other methods of [EndpointAnalyzer] *)

Module EndpointAnalyzer.

Definition getCachedEndpoints (filePath : string)
    (cache : gmap string (list EndpointInfo)) : option (list EndpointInfo) :=
  cache !! filePath.

(** [clearCache(filePath?)]: the test [if (filePath)] sends the empty
    path, like no path, to [cache.clear()]. *)
Definition clearCache (filePath : option string)
    (cache : gmap string (list EndpointInfo))
  : gmap string (list EndpointInfo) :=
  match filePath with
  | Some p => if truthy p then delete p cache else ∅
  | None => ∅
  end.

(** [undeclared && undeclared.length > 0] *)
Definition hasUndeclared (endpoint : EndpointInfo) : bool :=
  match _undeclaredExceptions endpoint with
  | Some undeclared => bool_decide (0 < Z.of_nat (length undeclared))
  | None => false
  end.

Definition getEndpointsWithIssues (result : AnalysisResult)
  : list EndpointInfo :=
  filter (λ endpoint, hasUndeclared endpoint = true) (endpoints result).

(** The map [byFile]: each endpoint is pushed to the list of its file. *)
Definition groupByFile (endpoints : list EndpointInfo)
  : gmap string (list EndpointInfo) :=
  foldl (λ byFile endpoint,
           <[file endpoint :=
               default [] (byFile !! file endpoint) ++ [endpoint]]> byFile)
        ∅ endpoints.

(** [analyzeWorkspace]: [workspaceFolder] is the path of the first
    workspace folder, if there is one; setting the cache for every entry
    of [byFile] is the union that prefers [byFile]. *)
Definition analyzeWorkspace (workspaceFolder : option string)
    (cliResult : option FaexJsonOutput)
    (cache : gmap string (list EndpointInfo))
  : AnalysisResult * gmap string (list EndpointInfo) :=
  match workspaceFolder, cliResult with
  | Some folder, Some result =>
      let endpoints := convertEndpoint <$> out_endpoints result in
      ({| endpoints := endpoints;
          errors := (λ msg, {| err_file := folder; err_line := None;
                               message := msg |}) <$> out_errors result |},
       groupByFile endpoints ∪ cache)
  | _, _ => (emptyAnalysis, cache)
  end.

End EndpointAnalyzer.

(** [getEndpoints] and [getDiagnostics]: an array, also the empty one, is
    truthy, so the right operand is used for a missing key only. *)
Definition getEndpoints (filePath : string) (m : Manager)
  : list EndpointInfo :=
  default [] (endpointCache m !! filePath).

Definition getDiagnostics (uri : string) (m : Manager) : list Diagnostic :=
  default [] (diagnosticCollection m !! uri).

(** The endpoint and the exception each diagnostic of a result is made
    for, in the order of the two loops. *)
Definition undeclaredPairs (result : AnalysisResult)
  : list (EndpointInfo * ExceptionLocation) :=
  endpoint ← endpoints result;
  (pair endpoint <$> getUndeclaredExceptions endpoint).

Definition metadata (d : Diagnostic) : EndpointInfo * ExceptionLocation :=
  (metadata_endpoint d, metadata_exception d).

(** ** More sample inputs *)

Definition sampleManager : Manager :=
  runManager [Request defaultConfig "python" (Some false) "app/main.py"].

Definition sampleResult (atLine : Z) : AnalysisResult :=
  {| endpoints :=
       [sampleEndpoint None [] (Some [raisedAt "HTTPException" atLine])];
     errors := [] |}.


(** ** What a run shows the user *)

(** The text [runFaexCli] shows the user for an [error] event. *)
Definition failedToRun (errMessage : string) : string :=
  "Failed to run faex: " +:+ errMessage
  +:+ ". Make sure faex is installed (pip install faex)".

Definition isData (ev : ProcessEvent) : bool :=
  match ev with OnData _ => true | _ => false end.

Definition errorTexts (events : list ProcessEvent) : list string :=
  ev ← events; match ev with OnError msg => [failedToRun msg] | _ => [] end.

(** [s.substring(start)] *)
Definition substringFrom (s : string) (start : Z) : string :=
  Js.str (drop (Z.to_nat start) (Js.chars s)).

(** What a command shows the user. *)
Inductive Shown :=
| InformationMessage (text : string)
| WarningMessage (text : string).

(** The message of [faex.checkCurrentFile] for a number of diagnostics. *)
Definition foundMessage (count : nat) : Shown :=
  if (count =? 0)%nat
  then InformationMessage "faex: No undeclared exceptions found"
  else WarningMessage
         ("faex: Found " +:+ pretty count +:+ " undeclared exception(s)").

(** [faex.checkCurrentFile]. [editor] is the language and the path of the
    active editor's document. The call of [analyzeDocument] is not
    awaited: it runs to its [await] and the command goes on. *)
Definition checkCurrentFile (config : FaexConfig)
    (editor : option (string * string)) (excluded : option bool)
    (m : Manager) : Manager * Shown :=
  match editor with
  | None => (m, WarningMessage "No active editor")
  | Some (languageId, fsPath) =>
      if negb (String.eqb languageId "python")
      then (m, WarningMessage "Current file is not a Python file")
      else
        let m := request config languageId excluded fsPath m in
        (m, foundMessage (length (getDiagnostics fsPath m)))
  end.

Record QuickPickItem := {
  label : string;
  description : string;
  detail : string;
}.






Section Glyphs.

(** The check mark and the warning sign the titles and labels start with.
    Each is one code unit, outside the range of [ascii]; nothing depends
    on which, so they stay variables. *)
Variables okGlyph warnGlyph : ascii.

(** ** [providers/codeLens.ts]: [CodeLensProvider] *)



(** ** [commands/commands.ts]: [faex.showAllExceptions] *)

(** [`${ep.method} ${ep.path}`] *)
Definition route (ep : EndpointInfo) : string :=
  method ep +:+ " " +:+ path ep.

Definition quickPickItem (ep : EndpointInfo) : QuickPickItem :=
  let undeclared := getUndeclaredExceptions ep in
  let status := if (length undeclared =? 0)%nat then okGlyph else warnGlyph in
  let detail :=
    if (0 <? length undeclared)%nat
    then "Missing: " +:+ Js.join ", " (exceptionClass <$> undeclared)
    else "Declared: "
         +:+ (let joined := Js.join ", " (declaredExceptions ep) in
              if truthy joined then joined else "none") in
  {| label := String status (" " +:+ route ep);
     description := functionName ep;
     detail := detail |}.

End Glyphs.

(** [endpoints.find((ep) => `${ep.method} ${ep.path}` ===
    selected.label.substring(2))] *)
Definition findSelected (endpoints : list EndpointInfo)
    (selected : QuickPickItem) : option EndpointInfo :=
  find (λ ep, String.eqb (route ep) (substringFrom (label selected) 2))
       endpoints.

(** What [faex.showAllExceptions] ends with. *)
Inductive Shows :=
| Message (shown : Shown)
| Reveal (atLine : Z)
| Nothing.

(** [pick] is the user's answer to the quick pick. *)
Definition showAllExceptions (okGlyph warnGlyph : ascii)
    (editor : option (string * string)) (m : Manager)
    (pick : list QuickPickItem → option QuickPickItem) : Shows :=
  match editor with
  | None => Message (WarningMessage "Open a Python file first")
  | Some (languageId, fsPath) =>
      if negb (String.eqb languageId "python")
      then Message (WarningMessage "Open a Python file first")
      else
        let endpoints := getEndpoints fsPath m in
        if (length endpoints =? 0)%nat
        then Message (InformationMessage "No FastAPI endpoints found")
        else
          match pick (quickPickItem okGlyph warnGlyph <$> endpoints) with
          | None => Nothing
          | Some selected =>
              match findSelected endpoints selected with
              | Some endpoint => Reveal (decoratorLine endpoint - 1)
              | None => Nothing
              end
          end
  end.

(** * Properties *)

(** ** Undeclared and unused exceptions *)

Lemma not_elem_of_list_to_set_string (l : list string) (x : string) :
  x ∉ (list_to_set l : gset string) ↔ x ∉ l.
Proof. by rewrite elem_of_list_to_set. Qed.

(** C1. [getUndeclaredExceptions] returns the list the tool supplied, as it
    is, whenever the endpoint carries one; otherwise it returns, in the
    order of detection, exactly the detected exceptions whose class name
    is not one of the declared names. *)
Theorem getUndeclaredExceptions_spec (endpoint : EndpointInfo) :
  getUndeclaredExceptions endpoint =
    match _undeclaredExceptions endpoint with
    | Some supplied => supplied
    | None =>
        filter (λ exc, exceptionClass exc ∉ declaredExceptions endpoint)
               (detectedExceptions endpoint)
    end.
Proof.
  unfold getUndeclaredExceptions.
  destruct (_undeclaredExceptions endpoint) as [supplied|]; [done|].
  apply list_filter_iff. intros exc.
  apply not_elem_of_list_to_set_string.
Qed.

(** C6. [getUnusedDeclarations] returns, in the declared order, exactly the
    declared names that are the class name of no detected exception. *)
Theorem getUnusedDeclarations_spec (endpoint : EndpointInfo) :
  getUnusedDeclarations endpoint =
    filter (λ name, name ∉ exceptionClass <$> detectedExceptions endpoint)
           (declaredExceptions endpoint).
Proof.
  unfold getUnusedDeclarations.
  apply list_filter_iff. intros name.
  apply not_elem_of_list_to_set_string.
Qed.

Lemma getUnusedDeclarations_elem_of (endpoint : EndpointInfo) (name : string) :
  name ∈ getUnusedDeclarations endpoint ↔
  name ∈ declaredExceptions endpoint
  ∧ ¬ ∃ exc, exc ∈ detectedExceptions endpoint ∧ exceptionClass exc = name.
Proof.
  unfold getUnusedDeclarations.
  rewrite list_elem_of_filter, not_elem_of_list_to_set_string.
  split.
  - intros [Hunused Hdeclared]. split; [done|].
    intros (exc & Hin & Hclass). apply Hunused.
    apply list_elem_of_fmap. by exists exc.
  - intros [Hdeclared Hnone]. split; [|done].
    intros (exc & Hclass & Hin)%list_elem_of_fmap.
    apply Hnone. by exists exc.
Qed.

Lemma getUnusedDeclarations_sublist (endpoint : EndpointInfo) :
  getUnusedDeclarations endpoint `sublist_of` declaredExceptions endpoint.
Proof. unfold getUnusedDeclarations. apply sublist_filter. Qed.

(** C10. An endpoint converted from the tool's output has no detected
    exception and its decorator line is the endpoint's line; hence every
    declared exception of such an endpoint is reported as unused. *)
Theorem convertEndpoint_unused (faexEndpoint : FaexEndpoint) :
  let endpoint := convertEndpoint faexEndpoint in
  detectedExceptions endpoint = []
  ∧ decoratorLine endpoint = line endpoint
  ∧ line endpoint = fe_line faexEndpoint
  ∧ declaredExceptions endpoint = declared_exceptions faexEndpoint
  ∧ getUnusedDeclarations endpoint = declared_exceptions faexEndpoint.
Proof.
  cbn zeta. repeat split.
  unfold getUnusedDeclarations. cbn.
  induction (declared_exceptions faexEndpoint) as [|name names IH]; [done|].
  rewrite filter_cons_True by apply not_elem_of_empty.
  by rewrite IH.
Qed.

(** ** The parenthesis scan *)







(** Before the first line there is nothing to read: [lineAt] throws. *)
Lemma findDecoratorEndLine_negative (document : TextDocument) (startLine : Z) :
  startLine < 0 → findDecoratorEndLine document startLine = Throws.
Proof.
  intros Hneg. unfold findDecoratorEndLine.
  by destruct (Z.ltb_spec startLine 0); [|lia].
Qed.


(** The note's example, a literal with an escaped quote before its
    parenthesis, and a call left open: the parentheses inside the literals
    are not counted, and the open call sends the scan back to its start. *)
Lemma findDecoratorEndLine_examples :
  findDecoratorEndLine
    ["@router.get(" +:+ quoted "/x(1)"; ")"; "def read_item(): pass"] 0
  = Returns 1
  ∧ findDecoratorEndLine
      ["@router.get(" +:+ quoted ("a" +:+ String Js.backslash (String Js.dquote "(b"));
       ")"; "def read_item(): pass"] 0
    = Returns 1
  ∧ findDecoratorEndLine ["@router.get("; "    " +:+ quoted "/x"] 0
    = Returns 0.
Proof. repeat split; vm_compute; reflexivity. Qed.

(** Inside a literal opened by [q] the scan changes nothing until [q]
    comes back. *)
Lemma scanText_inside (q : ascii) (body after : list ascii) :
  isQuote q = true →
  ∀ (prevChar : option ascii) (count : Z),
    notBackslash prevChar = true →
    Forall (λ c, c ≠ q ∧ c ≠ Js.backslash) body →
    scanText prevChar (body ++ q :: after)
      {| parenCount := count; inString := true; stringChar := Some q |}
    = scanText (Some q) after
        {| parenCount := count; inString := false; stringChar := Some q |}.
Proof.
  intros Hq. induction body as [|c body IH]; intros prevChar count Hprev Hbody.
  - cbn [app scanText]. unfold scanChar.
    cbn [inString stringChar negb sameChar parenCount].
    by rewrite Hq, Hprev, Ascii.eqb_refl.
  - apply Forall_cons in Hbody as [[Hcq Hcb] Hbody].
    cbn [app scanText]. unfold scanChar at 1.
    cbn [inString stringChar negb sameChar parenCount].
    apply Ascii.eqb_neq in Hcq. rewrite Hcq.
    assert (Hnext : notBackslash (Some c) = true).
    { cbn. by apply negb_true_iff, Ascii.eqb_neq. }
    destruct (isQuote c && notBackslash prevChar); by apply IH.
Qed.

(** A literal that holds neither its own quote nor a backslash is passed
    over whole: whatever parentheses it holds, the count after it is the
    count before it. *)
Lemma scanText_literal (q : ascii) (body after : list ascii)
    (prevChar : option ascii) (st : ScanState) :
  isQuote q = true →
  notBackslash prevChar = true →
  inString st = false →
  Forall (λ c, c ≠ q ∧ c ≠ Js.backslash) body →
  scanText prevChar (q :: body ++ q :: after) st
  = scanText (Some q) after
      {| parenCount := parenCount st; inString := false;
         stringChar := Some q |}.
Proof.
  intros Hq Hprev Hout Hbody.
  cbn [scanText]. unfold scanChar at 1. rewrite Hq, Hprev, Hout. cbn [andb negb].
  apply scanText_inside; [done| |done].
  cbn. apply negb_true_iff, Ascii.eqb_neq.
  intros ->. discriminate Hq.
Qed.

(** ** JavaScript strings: facts *)

Lemma lastIndexOfFrom_none (c : ascii) (s : list ascii) :
  c ∉ s → ∀ i, Js.lastIndexOfFrom [c] s i = -1.
Proof.
  induction s as [|x s IH]; intros Hnot i; [done|].
  apply not_elem_of_cons in Hnot as [Hne Hnot].
  cbn [Js.lastIndexOfFrom]. rewrite (IH Hnot). cbn.
  apply Ascii.eqb_neq in Hne. by rewrite Hne.
Qed.

Lemma lastIndexOfFrom_last (c : ascii) (pre post : list ascii) :
  c ∉ post →
  ∀ i, 0 ≤ i →
       Js.lastIndexOfFrom [c] (pre ++ c :: post) i = i + Z.of_nat (length pre).
Proof.
  intros Hnot. induction pre as [|x pre IH]; intros i Hi.
  - cbn [app Js.lastIndexOfFrom length].
    rewrite (lastIndexOfFrom_none c post Hnot). cbn.
    rewrite Ascii.eqb_refl. cbn. lia.
  - cbn [app Js.lastIndexOfFrom length].
    rewrite IH by lia.
    destruct (Z.leb_spec 0 (i + 1 + Z.of_nat (length pre))); lia.
Qed.

(** [lastIndexOf] finds the last closing parenthesis of a line, and
    answers [-1] exactly when the line has none. *)
Lemma lastIndexOf_paren (text : string) (pre post : list ascii) :
  Js.chars text = pre ++ ")"%char :: post →
  ")"%char ∉ post →
  Js.lastIndexOf text ")" = Z.of_nat (length pre).
Proof.
  intros Htext Hnot. unfold Js.lastIndexOf. rewrite Htext.
  change (Js.chars ")") with [")"%char].
  rewrite lastIndexOfFrom_last by (done || lia). lia.
Qed.

Lemma lastIndexOf_no_paren (text : string) :
  ")"%char ∉ Js.chars text → Js.lastIndexOf text ")" = -1.
Proof. intros Hnot. by apply lastIndexOfFrom_none. Qed.

Lemma substring0_prefix (text : string) (pre rest : list ascii) :
  Js.chars text = pre ++ rest →
  Js.substring0 text (Z.of_nat (length pre)) = Js.str pre.
Proof.
  intros Htext. unfold Js.substring0.
  by rewrite Htext, Nat2Z.id, take_app_length.
Qed.

(** ** Regular expressions: facts *)

(** A star matches when some split of the input gives it code units of
    its class and lets the rest of the pattern match. *)
Lemma many_complete (class : ascii → bool) (rest : list ascii → option nat)
    (x y : list ascii) :
  Forall (λ c, class c = true) x →
  is_Some (rest y) →
  is_Some (RegExp.many class rest (x ++ y)).
Proof.
  intros Hx Hy. induction Hx as [|c x Hc Hx IH].
  - cbn [app]. destruct y as [|d y]; [done|]. cbn [RegExp.many].
    destruct (class d); [|done].
    by destruct (RegExp.many class rest y).
  - cbn [app RegExp.many]. rewrite Hc.
    destruct IH as [n ->]. done.
Qed.

Lemma many_sound (class : ascii → bool) (rest : list ascii → option nat)
    (s : list ascii) (n : nat) :
  RegExp.many class rest s = Some n →
  ∃ x y k, s = x ++ y ∧ Forall (λ c, class c = true) x
           ∧ rest y = Some k ∧ n = (length x + k)%nat.
Proof.
  revert n. induction s as [|c s IH]; intros n Hmany.
  - exists [], [], n. by repeat split.
  - cbn [RegExp.many] in Hmany.
    destruct (class c) eqn:Hc.
    + destruct (RegExp.many class rest s) as [m|] eqn:Hm.
      * injection Hmany as <-.
        destruct (IH m eq_refl) as (x & y & k & -> & Hx & Hy & ->).
        exists (c :: x), y, k. repeat split; [by constructor|done].
      * exists [], (c :: s), n. by repeat split.
    + exists [], (c :: s), n. by repeat split.
Qed.

Lemma matchAt_sound (r : RegExp.Pattern) :
  anchorFree r →
  ∀ s n, RegExp.matchAt r s = Some n →
         ∃ pre post, s = pre ++ post ∧ length pre = n ∧ matches r pre.
Proof.
  induction r as [|a r IH]; intros Hfree s n Hmatch.
  - injection Hmatch as <-. exists [], s. repeat split. constructor.
  - apply Forall_cons in Hfree as [Ha Hfree].
    destruct a as [class|class|]; [| |discriminate Ha]; cbn [RegExp.matchAt] in Hmatch.
    + destruct s as [|c s]; [discriminate Hmatch|].
      destruct (class c) eqn:Hc; [|discriminate Hmatch].
      destruct (RegExp.matchAt r s) as [m|] eqn:Hm; [|discriminate Hmatch].
      injection Hmatch as <-.
      destruct (IH Hfree s m Hm) as (pre & post & -> & <- & Hpre).
      exists (c :: pre), post. repeat split. by constructor.
    + apply many_sound in Hmatch as (x & y & k & -> & Hx & Hy & ->).
      destruct (IH Hfree y k Hy) as (pre & post & -> & <- & Hpre).
      exists (x ++ pre), post. rewrite app_assoc, length_app.
      repeat split. by constructor.
Qed.

Lemma matchAt_anchored (r : RegExp.Pattern) :
  anchorFree r →
  ∀ s, is_Some (RegExp.matchAt (r ++ [RegExp.AtEnd]) s) ↔ matches r s.
Proof.
  induction r as [|a r IH]; intros Hfree s.
  - cbn. destruct s as [|c s].
    + split; [intros _; constructor|intros _; by exists 0%nat].
    + split; [intros [? H]; discriminate H|intros H; inversion H].
  - apply Forall_cons in Hfree as [Ha Hfree].
    destruct a as [class|class|]; [| |discriminate Ha];
      cbn [app RegExp.matchAt].
    + destruct s as [|c s].
      * split; [by intros [? ?]|intros H; inversion H].
      * destruct (class c) eqn:Hc.
        -- rewrite fmap_is_Some, (IH Hfree). split.
           ++ intros H. by constructor.
           ++ intros H. by inversion H.
        -- split; [by intros [? ?]|]. intros H. inversion H. congruence.
    + split.
      * intros [n Hn].
        apply many_sound in Hn as (x & y & k & -> & Hx & Hy & ->).
        constructor; [done|]. apply (IH Hfree). by exists k.
      * intros H. inversion H as [| |? ? x y Hx Hy]; subst.
        apply many_complete; [done|]. by apply (IH Hfree).
Qed.

Lemma execFrom_sound (r : RegExp.Pattern) :
  anchorFree r →
  ∀ s i index len,
    RegExp.execFrom r s i = Some (index, len) →
    ∃ pre mid post,
      s = pre ++ mid ++ post
      ∧ index = i + Z.of_nat (length pre)
      ∧ len = Z.of_nat (length mid)
      ∧ matches r mid.
Proof.
  intros Hfree s. induction s as [|c s IH]; intros i index len Hexec;
    cbn [RegExp.execFrom] in Hexec;
    destruct (RegExp.matchAt r _) as [n|] eqn:Hn.
  - injection Hexec as <- <-.
    apply (matchAt_sound r Hfree) in Hn as (mid & post & -> & <- & Hmid).
    exists [], mid, post. cbn [app length]. repeat split; [lia|done].
  - discriminate Hexec.
  - injection Hexec as <- <-.
    apply (matchAt_sound r Hfree) in Hn as (mid & post & -> & <- & Hmid).
    exists [], mid, post. cbn [app length]. repeat split; [lia|done].
  - apply IH in Hexec as (pre & mid & post & -> & -> & -> & Hmid).
    exists (c :: pre), mid, post. cbn [app length]. repeat split; [lia|done].
Qed.

Lemma matches_literal (word : list ascii) (r : RegExp.Pattern) (s : list ascii) :
  matches (((λ c, RegExp.One (RegExp.isChar c)) <$> word) ++ r) s ↔
  ∃ rest, s = word ++ rest ∧ matches r rest.
Proof.
  revert s. induction word as [|w word IH]; intros s; cbn [fmap list_fmap app].
  - split; [intros H; by exists s|by intros (rest & -> & H)].
  - split.
    + intros H. inversion H as [|? ? c s' Hc Hs'|]; subst.
      apply Ascii.eqb_eq in Hc as ->.
      apply IH in Hs' as (rest & -> & Hrest). by exists rest.
    + intros (rest & -> & Hrest). constructor; [apply Ascii.eqb_refl|].
      apply IH. by exists rest.
Qed.

(** ** The regenerated list *)

Lemma allExceptions_nothing_new (declared newExceptions : list string) :
  (∀ name, name ∈ newExceptions → name ∈ declared) →
  allExceptions declared newExceptions = declared.
Proof.
  intros Hold. unfold allExceptions.
  replace (filter (λ e, e ∉ declared) newExceptions) with (@nil string).
  - apply app_nil_r.
  - symmetry. induction newExceptions as [|e rest IH]; [done|].
    rewrite filter_cons_False.
    + apply IH. intros name Hin. apply Hold. by right.
    + intros Hnot. apply Hnot, Hold. by left.
Qed.

(** Adding the same names a second time changes nothing. *)
Lemma allExceptions_idempotent (declared newExceptions : list string) :
  allExceptions (allExceptions declared newExceptions) newExceptions
  = allExceptions declared newExceptions.
Proof.
  apply allExceptions_nothing_new. intros name Hin.
  unfold allExceptions. rewrite elem_of_app, list_elem_of_filter.
  destruct (decide (name ∈ declared)); [by left|by right].
Qed.

(** C5 (amended). The regenerated list is the declared names, in their
    order, followed by those requested names that are not declared, in the
    order given. It has no repeated name when neither the declared names
    nor the requested names have one. Adding a name that is already
    declared leaves the list, and so its rendering, as it was, and adding
    NotFoundException to no declared name renders as
    exceptions=[NotFoundException]. *)
Theorem allExceptions_spec (declared newExceptions : list string) :
  (let added := filter (λ name, name ∉ declared) newExceptions in
   allExceptions declared newExceptions = declared ++ added
   ∧ added `sublist_of` newExceptions
   ∧ ∀ name, name ∈ added ↔ name ∈ newExceptions ∧ name ∉ declared)
  ∧ (NoDup declared → NoDup newExceptions →
     NoDup (allExceptions declared newExceptions))
  ∧ (∀ name, name ∈ declared →
       allExceptions declared [name] = declared
       ∧ exceptionsText (allExceptions declared [name])
         = exceptionsText declared)
  ∧ exceptionsText (allExceptions [] ["NotFoundException"])
    = "exceptions=[NotFoundException]".
Proof.
  split; [|split; [|split]].
  - cbn zeta. split; [done|]. split; [apply sublist_filter|].
    intros name. rewrite list_elem_of_filter. tauto.
  - intros Hdeclared Hnew. unfold allExceptions.
    apply NoDup_app. split; [done|]. split.
    + intros name Hin [Hnot _]%list_elem_of_filter. by apply Hnot.
    + by apply NoDup_filter.
  - intros name Hin.
    assert (Hsame : allExceptions declared [name] = declared).
    { apply allExceptions_nothing_new.
      intros other ->%list_elem_of_singleton. done. }
    by rewrite Hsame.
  - vm_compute. reflexivity.
Qed.

Lemma allExceptions_witness :
  NoDup (allExceptions ["ValidationError"] ["NotFoundException"; "ValidationError"]).
Proof.
  apply (proj1 (proj2 (allExceptions_spec
                         ["ValidationError"]
                         ["NotFoundException"; "ValidationError"]))).
  - apply NoDup_singleton.
  - apply NoDup_cons. split; [|apply NoDup_singleton].
    intros Hin%list_elem_of_singleton. discriminate Hin.
Defined.

(** C5, as stated, fails: a name repeated among the declared names stays
    repeated, and a name requested twice is added twice. *)
Lemma allExceptions_repeats :
  ¬ NoDup (allExceptions ["A"; "A"] [])
  ∧ ¬ NoDup (allExceptions [] ["B"; "B"]).
Proof.
  split; cbn; intros [Hnot _]%NoDup_cons; apply Hnot; by left.
Qed.

(** A class raised at two places is offered twice by the action that adds
    all missing exceptions, and is written twice. *)
Lemma addAll_repeats_class :
  let endpoint :=
    sampleEndpoint None []
      (Some [raisedAt "NotFoundException" 12; raisedAt "NotFoundException" 20]) in
  last (quickFixEdits ["@router.get(" +:+ quoted "/x" +:+ ")"] endpoint)
  = Some (Returns
            [Insert 0 16
               ("," +:+ newline
                +:+ "    exceptions=[NotFoundException, NotFoundException]")]).
Proof. vm_compute. reflexivity. Qed.

(** ** The inserted parameter *)

(** C4 (amended). For an endpoint without an exceptions line, let the
    parenthesis scan end on a line of the document. If that line holds a
    closing parenthesis, the edit is exactly one insertion right before
    the last one: an optional comma, a newline, four spaces and the text
    exceptions=[...] with the regenerated list; when the text before that
    parenthesis on its line is not blank, the comma is there if and only if
    that text, trimmed, does not end with a comma. If the line holds no
    closing parenthesis, there is no edit. *)
Theorem createAddExceptionEdit_insert (document : TextDocument)
    (endpoint : EndpointInfo) (newExceptions : list string)
    (endLine : Z) (endLineText : string) :
  exceptionsLine endpoint = None →
  findDecoratorEndLine document (decoratorLine endpoint - 1) = Returns endLine →
  lineAt document endLine = Some endLineText →
  let listText :=
    exceptionsText (allExceptions (declaredExceptions endpoint) newExceptions) in
  (∀ pre post,
      Js.chars endLineText = pre ++ ")"%char :: post →
      ")"%char ∉ post →
      let before := Js.trim (Js.str pre) in
      ∃ comma,
        createAddExceptionEdit document endpoint newExceptions
        = Returns [Insert endLine (Z.of_nat (length pre))
                     (comma +:+ newline +:+ "    " +:+ listText)]
        ∧ (comma = "" ∨ comma = ",")
        ∧ (before ≠ "" → (comma = "," ↔ Js.endsWith before "," = false)))
  ∧ (")"%char ∉ Js.chars endLineText →
     createAddExceptionEdit document endpoint newExceptions = Returns []).
Proof.
  intros Hnone Hscan Hline listText. subst listText.
  unfold createAddExceptionEdit. rewrite Hnone, Hscan, Hline. split.
  - intros pre post Htext Hlast.
    rewrite (lastIndexOf_paren _ _ _ Htext Hlast).
    destruct (Z.leb_spec 0 (Z.of_nat (length pre))) as [_|Hneg]; [|lia].
    unfold needsComma. rewrite (substring0_prefix _ _ _ Htext).
    set (before := Js.trim (Js.str pre)).
    exists (if bool_decide (0 < Js.jsLength before)
                && negb (Js.endsWith before ",")
            then "," else "").
    split; [done|]. split.
    + destruct (_ && _); [by right|by left].
    + intros Hblank.
      assert (Hlen : 0 < Js.jsLength before).
      { unfold Js.jsLength. destruct before; [done|]. cbn. lia. }
      rewrite (bool_decide_eq_true_2 _ Hlen). cbn [andb].
      destruct (Js.endsWith before ","); cbn [negb]; split; done.
  - intros Hnoparen. rewrite (lastIndexOf_no_paren _ Hnoparen). done.
Qed.

(** What the code does when nothing but white space stands before the
    parenthesis on its line: it puts no comma. *)
Lemma needsComma_blank (endLineText : string) (closingParenIndex : Z) :
  Js.trim (Js.substring0 endLineText closingParenIndex) = "" →
  needsComma endLineText closingParenIndex = false.
Proof. intros Hblank. unfold needsComma. by rewrite Hblank. Qed.

Lemma createAddExceptionEdit_insert_witness :
  ∃ comma,
    createAddExceptionEdit ["@router.get(" +:+ quoted "/x" +:+ ")"]
      (sampleEndpoint None [] None) ["A"]
    = Returns [Insert 0 16 (comma +:+ newline +:+ "    " +:+ "exceptions=[A]")]
    ∧ (comma = "" ∨ comma = ",")
    ∧ (Js.trim ("@router.get(" +:+ quoted "/x") ≠ "" →
       (comma = "," ↔
        Js.endsWith (Js.trim ("@router.get(" +:+ quoted "/x")) "," = false)).
Proof.
  apply (proj1 (createAddExceptionEdit_insert
                  ["@router.get(" +:+ quoted "/x" +:+ ")"]
                  (sampleEndpoint None [] None) ["A"] 0
                  ("@router.get(" +:+ quoted "/x" +:+ ")")
                  eq_refl eq_refl eq_refl)
               (Js.chars ("@router.get(" +:+ quoted "/x")) []).
  - vm_compute. reflexivity.
  - apply not_elem_of_nil.
Defined.

(** C4, as stated, fails twice. A call left open to the end of the
    document sends the scan back to the start line, which holds no closing
    parenthesis: no insertion is made. And when the closing parenthesis
    stands first on its line, as in the note's own example, no comma is put
    although the argument on the line above needs one. *)
Lemma createAddExceptionEdit_insert_counterexample :
  createAddExceptionEdit ["@router.get("; "    " +:+ quoted "/x"]
    (sampleEndpoint None [] None) ["A"]
  = Returns []
  ∧ createAddExceptionEdit
      ["@router.get("; "    " +:+ quoted "/x"; ")"; "def read_item(): pass"]
      (sampleEndpoint None [] None) ["A"]
    = Returns [Insert 2 0 (newline +:+ "    exceptions=[A]")].
Proof. split; vm_compute; reflexivity. Qed.

(** ** The replaced parameter *)

(** What the pattern of the exceptions parameter matches. *)
Lemma matches_exceptionsRegExp (mid : list ascii) :
  matches exceptionsRegExp mid ↔
  ∃ ws1 ws2 body,
    mid = Js.chars "exceptions" ++ ws1 ++ "="%char :: ws2
          ++ "["%char :: body ++ ["]"%char]
    ∧ Forall (λ c, Js.isSpace c = true) ws1
    ∧ Forall (λ c, Js.isSpace c = true) ws2
    ∧ "]"%char ∉ body.
Proof.
  unfold exceptionsRegExp, RegExp.literal. rewrite matches_literal. split.
  - intros (rest & -> & H).
    inversion H as [| |? ? ws1 s1 Hws1 H1]; subst.
    inversion H1 as [|? ? c1 s2 Hc1 H2|]; subst.
    apply Ascii.eqb_eq in Hc1 as <-.
    inversion H2 as [| |? ? ws2 s3 Hws2 H3]; subst.
    inversion H3 as [|? ? c2 s4 Hc2 H4|]; subst.
    apply Ascii.eqb_eq in Hc2 as <-.
    inversion H4 as [| |? ? body s5 Hbody H5]; subst.
    inversion H5 as [|? ? c3 s6 Hc3 H6|]; subst.
    apply Ascii.eqb_eq in Hc3 as <-.
    inversion H6; subst.
    exists ws1, ws2, body. repeat split; [done..|].
    intros Hin. rewrite Forall_forall in Hbody.
    specialize (Hbody _ Hin). unfold RegExp.notChar in Hbody. done.
  - intros (ws1 & ws2 & body & -> & Hws1 & Hws2 & Hbody).
    eexists. split; [done|].
    constructor; [done|]. constructor; [done|].
    constructor; [done|]. constructor; [done|].
    constructor.
    + apply Forall_forall. intros c Hc. unfold RegExp.notChar.
      apply negb_true_iff, Ascii.eqb_neq. intros <-. done.
    + constructor; [done|]. constructor.
Qed.

Lemma anchorFree_exceptionsRegExp : anchorFree exceptionsRegExp.
Proof. repeat constructor. Qed.

(** On a line of the document, the edit for an endpoint with an
    exceptions line is either none, when the pattern matches nowhere, or
    one replacement on that line, as long as a match of the pattern and
    with the regenerated text, that starts where the word exceptions
    first occurs. *)
Lemma createAddExceptionEdit_replace (document : TextDocument)
    (endpoint : EndpointInfo) (newExceptions : list string)
    (excLine : Z) (lineText : string) :
  exceptionsLine endpoint = Some excLine →
  lineAt document (excLine - 1) = Some lineText →
  (RegExp.exec exceptionsRegExp lineText = None
   ∧ createAddExceptionEdit document endpoint newExceptions = Returns [])
  ∨ ∃ pre mid post,
      Js.chars lineText = pre ++ mid ++ post
      ∧ matches exceptionsRegExp mid
      ∧ RegExp.exec exceptionsRegExp lineText
        = Some (Z.of_nat (length pre), Z.of_nat (length mid))
      ∧ createAddExceptionEdit document endpoint newExceptions
        = Returns
            [Replace (excLine - 1) (Js.indexOf lineText "exceptions")
               (excLine - 1)
               (Js.indexOf lineText "exceptions" + Z.of_nat (length mid))
               (exceptionsText
                  (allExceptions (declaredExceptions endpoint)
                     newExceptions))].
Proof.
  intros Hsome Hline. unfold createAddExceptionEdit. rewrite Hsome, Hline.
  destruct (RegExp.exec exceptionsRegExp lineText) as [[index len]|] eqn:Hexec;
    [right|by left].
  pose proof Hexec as Hshape. unfold RegExp.exec in Hshape.
  apply (execFrom_sound _ anchorFree_exceptionsRegExp) in Hshape
    as (pre & mid & post & Htext & -> & -> & Hmid).
  exists pre, mid, post. by rewrite Z.add_0_l.
Qed.

(** The note's example: on the line with exceptions=[A], adding B replaces
    that text, columns 18 to 32, with exceptions=[A, B]. *)
Lemma createAddExceptionEdit_replace_example :
  let lineText := "@router.get(" +:+ quoted "/x" +:+ ", exceptions=[A])" in
  RegExp.exec exceptionsRegExp lineText = Some (18, 14)
  ∧ createAddExceptionEdit [lineText] (sampleEndpoint (Some 1) ["A"] None) ["B"]
    = Returns [Replace 0 18 0 32 "exceptions=[A, B]"].
Proof. split; vm_compute; reflexivity. Qed.


(** ** The command line run *)

Section CliFacts.

Variable JSON_parse : string → option (option FaexJsonOutput).

(** Data events fill the two buffers and touch nothing else. *)
Lemma onData_buffers (chunks : list DataEvent) :
  ∀ st : CliRun,
    foldl (onEvent JSON_parse) st (OnData <$> chunks)
    = {| stdout := foldl (λ text d, match d with
                                    | StdoutData data => text +:+ data
                                    | StderrData _ => text
                                    end) (stdout st) chunks;
         stderr := foldl (λ text d, match d with
                                    | StderrData data => text +:+ data
                                    | StdoutData _ => text
                                    end) (stderr st) chunks;
         resolved := resolved st;
         consoleErrors := consoleErrors st;
         shownErrors := shownErrors st |}.
Proof.
  induction chunks as [|d chunks IH]; intros st.
  - by destruct st.
  - cbn [fmap list_fmap foldl]. rewrite IH. by destruct d.
Qed.

Lemma runFaexCli_data_then_close (chunks : list DataEvent) (code : option Z) :
  runFaexCli JSON_parse ((OnData <$> chunks) ++ [OnClose code])
  = onEvent JSON_parse
      {| stdout := stdoutOf chunks; stderr := stderrOf chunks;
         resolved := None; consoleErrors := []; shownErrors := [] |}
      (OnClose code).
Proof.
  unfold runFaexCli. rewrite foldl_app, onData_buffers. done.
Qed.

Lemma truthy_spec (s : string) : truthy s = true ↔ s ≠ "".
Proof.
  unfold truthy. rewrite negb_true_iff.
  destruct (String.eqb_spec s ""); split; congruence.
Qed.

(** C7. When the process closes, whatever its exit code: standard output
    that is not empty is parsed and the parsed value is what the promise
    resolves with; when parsing throws the promise resolves with null and
    the raw output is logged; when standard output is empty the promise
    resolves with null (standard error, if any, is logged). Nothing is
    shown to the user, and the analyzer turns a null result into an
    analysis with no endpoints and no errors, which yields no
    diagnostic. *)
Theorem runFaexCli_close (chunks : list DataEvent) (code : option Z) :
  let out := stdoutOf chunks in
  let err := stderrOf chunks in
  let run := runFaexCli JSON_parse ((OnData <$> chunks) ++ [OnClose code]) in
  (∀ code',
      runFaexCli JSON_parse ((OnData <$> chunks) ++ [OnClose code']) = run)
  ∧ (∀ value,
       out ≠ "" → JSON_parse out = Some value →
       resolved run = Some value ∧ consoleErrors run = [])
  ∧ (out ≠ "" → JSON_parse out = None →
     resolved run = Some None
     ∧ consoleErrors run = [("Failed to parse faex output:", out)])
  ∧ (out = "" →
     resolved run = Some None
     ∧ consoleErrors run = if truthy err then [("faex error:", err)] else [])
  ∧ shownErrors run = []
  ∧ (∀ excluded fsPath cache,
       analyzeDocument excluded fsPath None cache = (emptyAnalysis, cache))
  ∧ (∀ document, diagnosticsFor emptyAnalysis document = Returns []).
Proof.
  intros out err run. subst run.
  rewrite runFaexCli_data_then_close. fold out err.
  split; [intros code'; by rewrite runFaexCli_data_then_close|].
  cbn [onEvent stdout stderr].
  split; [|split; [|split; [|split; [|split]]]].
  - intros value Hout Hparse. apply truthy_spec in Hout.
    by rewrite Hout, Hparse.
  - intros Hout Hparse. apply truthy_spec in Hout.
    by rewrite Hout, Hparse.
  - intros ->. cbn [truthy String.eqb negb]. by destruct (truthy err).
  - destruct (truthy out); [destruct (JSON_parse out)|destruct (truthy err)];
      done.
  - intros excluded fsPath cache. unfold analyzeDocument. by destruct excluded.
  - done.
Qed.

End CliFacts.

Lemma runFaexCli_close_witness :
  resolved
    (runFaexCli (λ _, None)
       ((OnData <$> [StdoutData "Traceback"; StderrData "boom"])
        ++ [OnClose (Some 1)]))
  = Some None
  ∧ consoleErrors
      (runFaexCli (λ _, None)
         ((OnData <$> [StdoutData "Traceback"; StderrData "boom"])
          ++ [OnClose (Some 1)]))
    = [("Failed to parse faex output:", "Traceback")].
Proof.
  apply (proj1 (proj2 (proj2 (runFaexCli_close (λ _, None)
           [StdoutData "Traceback"; StderrData "boom"] (Some 1))))).
  - vm_compute. discriminate.
  - reflexivity.
Defined.

(** ** One analysis in flight per file *)

Lemma elem_of_removeFirst (p q : string) (l : list string) :
  NoDup l → q ∈ removeFirst p l ↔ q ∈ l ∧ q ≠ p.
Proof.
  induction l as [|x l IH]; intros Hnodup.
  - cbn. rewrite elem_of_nil. tauto.
  - apply NoDup_cons in Hnodup as [Hx Hnodup]. cbn [removeFirst].
    destruct (String.eqb_spec p x) as [->|Hne].
    + rewrite elem_of_cons. split.
      * intros Hq. split; [by right|]. intros ->. done.
      * intros [[->|Hq] Hne]; done.
    + rewrite !elem_of_cons, (IH Hnodup). split.
      * intros [->|[Hq Hqp]]; [split; [by left|congruence]|].
        split; [by right|done].
      * intros [[->|Hq] Hqp]; [by left|by right].
Qed.

Lemma NoDup_removeFirst (p : string) (l : list string) :
  NoDup l → NoDup (removeFirst p l).
Proof.
  induction l as [|x l IH]; intros Hnodup; [done|].
  apply NoDup_cons in Hnodup as [Hx Hnodup]. cbn [removeFirst].
  destruct (String.eqb p x); [done|].
  apply NoDup_cons. split; [|by apply IH].
  intros [Hin _]%elem_of_removeFirst; done.
Qed.

Lemma singleFlight_start : singleFlight managerStart.
Proof.
  split; [apply NoDup_nil_2|].
  intros p. cbn. rewrite elem_of_empty, elem_of_nil. tauto.
Qed.

Lemma singleFlight_step (m : Manager) (ev : ManagerEvent) :
  singleFlight m → singleFlight (managerStep m ev).
Proof.
  intros [Hnodup Hsame].
  destruct ev as [config languageId excluded fsPath
                 |fsPath document analysis|uri|]; cbn [managerStep].
  - unfold request.
    destruct (negb (enable config)); [done|].
    destruct (negb (String.eqb languageId "python")); [done|].
    destruct excluded as [[|]|]; [done| |done].
    case_bool_decide as Hin; [done|].
    split; cbn [running analysisInProgress].
    + apply NoDup_cons. split; [|done]. by rewrite <- Hsame.
    + intros p. rewrite elem_of_union, elem_of_singleton, elem_of_cons, Hsame.
      tauto.
  - unfold settle. case_bool_decide as Hin; [|done].
    assert (Hbody : ∀ m', running m' = running m →
                          analysisInProgress m' = analysisInProgress m →
                          singleFlight (finally fsPath m')).
    { intros m' Hrun Hset. split; cbn [finally running analysisInProgress].
      - rewrite Hrun. by apply NoDup_removeFirst.
      - intros p. rewrite Hrun, Hset, elem_of_difference, elem_of_singleton.
        rewrite (elem_of_removeFirst _ _ _ Hnodup), Hsame. tauto. }
    destruct analysis as [result|]; [|by apply Hbody].
    apply Hbody; unfold publish; by destruct (diagnosticsFor result document).
  - done.
  - done.
Qed.

Lemma singleFlight_run (events : list ManagerEvent) :
  singleFlight (runManager events).
Proof.
  unfold runManager.
  induction events as [|ev events IH] using rev_ind.
  - apply singleFlight_start.
  - rewrite foldl_app. cbn [foldl]. by apply singleFlight_step.
Qed.

Lemma filter_eq_absent (p : string) (l : list string) :
  p ∉ l → filter (λ q, q = p) l = [].
Proof.
  induction l as [|x l IH]; intros Hnot; [done|].
  apply not_elem_of_cons in Hnot as [Hne Hnot].
  rewrite filter_cons_False by congruence. by apply IH.
Qed.

Lemma NoDup_count_le_1 (p : string) (l : list string) :
  NoDup l → (length (filter (λ q, q = p) l) ≤ 1)%nat.
Proof.
  induction l as [|x l IH]; intros Hnodup; [cbn; lia|].
  apply NoDup_cons in Hnodup as [Hx Hnodup].
  destruct (decide (x = p)) as [->|Hne].
  - rewrite filter_cons_True by done. cbn [length].
    rewrite (filter_eq_absent p l Hx). cbn. lia.
  - rewrite filter_cons_False by done. by apply IH.
Qed.

(** C8. After any sequence of requests, settlements and clearings, no file
    has more than one analysis in flight, and the in-progress set holds
    exactly the files that have one. A request for a file that has one is
    dropped: it changes nothing and starts nothing. A request that passes
    the guards puts the file in the set and starts its analysis. When the
    analysis settles, fulfilled or thrown, the file leaves the set and has
    no analysis in flight. *)
Theorem analyzeDocument_single_flight (events : list ManagerEvent) :
  let m := runManager events in
  (∀ fsPath, (inFlight fsPath m ≤ 1)%nat)
  ∧ (∀ fsPath, fsPath ∈ analysisInProgress m ↔ inFlight fsPath m = 1%nat)
  ∧ (∀ config languageId excluded fsPath,
       fsPath ∈ analysisInProgress m →
       enable config = true → languageId = "python" → excluded = Some false →
       request config languageId excluded fsPath m = m)
  ∧ (∀ config languageId excluded fsPath,
       fsPath ∉ analysisInProgress m →
       enable config = true → languageId = "python" → excluded = Some false →
       let m' := request config languageId excluded fsPath m in
       fsPath ∈ analysisInProgress m' ∧ inFlight fsPath m' = 1%nat)
  ∧ (∀ fsPath document analysis,
       fsPath ∈ analysisInProgress m →
       let m' := settle fsPath document analysis m in
       (fsPath ∉ analysisInProgress m') ∧ inFlight fsPath m' = 0%nat).
Proof.
  intros m. pose proof (singleFlight_run events) as Hm. fold m in Hm.
  assert (Hcount : ∀ m0 fsPath, singleFlight m0 →
            (fsPath ∈ analysisInProgress m0 ↔ inFlight fsPath m0 = 1%nat)
            ∧ (fsPath ∉ analysisInProgress m0 → inFlight fsPath m0 = 0%nat)).
  { intros m0 fsPath [Hnodup Hsame]. unfold inFlight.
    pose proof (NoDup_count_le_1 fsPath (running m0) Hnodup) as Hle.
    rewrite Hsame. split; [split|].
    - intros Hin.
      assert (fsPath ∈ filter (λ q, q = fsPath) (running m0)) as Hf
        by (by apply list_elem_of_filter).
      destruct (filter _ (running m0)); [by apply elem_of_nil in Hf|].
      cbn in *. lia.
    - intros Hone.
      destruct (filter (λ q, q = fsPath) (running m0)) as [|x l] eqn:Hf;
        [discriminate Hone|].
      assert (x ∈ filter (λ q, q = fsPath) (running m0)) as Hx
        by (rewrite Hf; by left).
      by apply list_elem_of_filter in Hx as [-> Hx].
    - intros Hnot. by rewrite filter_eq_absent. }
  split; [|split; [|split; [|split]]].
  - intros fsPath. apply NoDup_count_le_1, Hm.
  - intros fsPath. by apply Hcount.
  - intros config languageId excluded fsPath Hin Hen -> ->.
    unfold request. rewrite Hen. cbn.
    by rewrite bool_decide_eq_true_2.
  - intros config languageId excluded fsPath Hnot Hen Hlang Hex m'.
    assert (Hm' : singleFlight m').
    { apply (singleFlight_step m (Request config languageId excluded fsPath) Hm). }
    assert (Hin : fsPath ∈ analysisInProgress m').
    { subst m' languageId excluded. unfold request. rewrite Hen. cbn.
      rewrite bool_decide_eq_false_2 by done.
      cbn. apply elem_of_union_l, elem_of_singleton. done. }
    split; [done|]. by apply Hcount.
  - intros fsPath document analysis Hin m'.
    assert (Hm' : singleFlight m').
    { apply (singleFlight_step m (Settle fsPath document analysis) Hm). }
    assert (Hnot : fsPath ∉ analysisInProgress m').
    { subst m'. unfold settle.
      rewrite bool_decide_eq_true_2 by (by apply Hm).
      cbn [finally analysisInProgress].
      rewrite elem_of_difference, elem_of_singleton. tauto. }
    split; [done|]. by apply Hcount.
Qed.

Lemma analyzeDocument_single_flight_witness :
  (inFlight "app/main.py"
     (runManager
        [Request defaultConfig "python" (Some false) "app/main.py";
         Request defaultConfig "python" (Some false) "app/main.py"]) ≤ 1)%nat.
Proof.
  apply (proj1 (analyzeDocument_single_flight
                  [Request defaultConfig "python" (Some false) "app/main.py";
                   Request defaultConfig "python" (Some false) "app/main.py"])).
Defined.

(** Two requests for one file while the first is suspended start one
    analysis; once it has thrown, the file is free again. *)
Lemma analyzeDocument_twice :
  let twice :=
    [Request defaultConfig "python" (Some false) "app/main.py";
     Request defaultConfig "python" (Some false) "app/main.py"] in
  running (runManager twice) = ["app/main.py"]
  ∧ running (runManager (twice ++ [Settle "app/main.py" [] Throws])) = []
  ∧ analysisInProgress (runManager (twice ++ [Settle "app/main.py" [] Throws]))
    = ∅.
Proof. repeat split; vm_compute; reflexivity. Qed.

(** ** Excluded files *)

Lemma globToRegexSource_tests : globToRegexSource "**/tests/**" = ".*/tests/.*".
Proof. vm_compute. reflexivity. Qed.

(** What the note's reading of the glob asks of a path. *)
Lemma matchesGlob_tests (path : string) :
  matchesGlob path "**/tests/**" ↔
  ∃ a b, Js.chars path = a ++ Js.chars "/tests/" ++ b.
Proof.
  unfold matchesGlob.
  change (globTokens (Js.chars "**/tests/**"))
    with ([GlobStar] ++ (Plain <$> Js.chars "/tests/") ++ [GlobStar]).
  split.
  - intros H. cbn in H.
    inversion H as [| | |a ts s Hrest Hsplit]; subst. exists a.
    repeat match goal with
           | H : globMatches (Plain _ :: _) _ |- _ =>
               inversion H; subst; clear H
           end.
    match goal with
    | H : globMatches [GlobStar] _ |- _ =>
        inversion H as [| | |b ts' s' Hnil]; subst
    end.
    inversion Hnil; subst. exists b. by rewrite app_nil_r.
  - intros (a & b & ->). cbn.
    apply glob_globstar. repeat apply glob_plain.
    rewrite <- (app_nil_r b). apply glob_globstar, glob_nil.
Qed.

(** The code's reading of [**/tests/**]: like the note's, but the two
    ends may hold no line terminator. *)
Lemma matchGlobPattern_tests_iff (path : string) :
  matchGlobPattern path "**/tests/**" = Some true ↔
  ∃ a b,
    Js.chars path = a ++ Js.chars "/tests/" ++ b
    ∧ Forall (λ c, Js.isLineTerminator c = false) a
    ∧ Forall (λ c, Js.isLineTerminator c = false) b.
Proof.
  unfold matchGlobPattern. rewrite globToRegexSource_tests.
  cbn [Js.chars list_ascii_of_string RegExp.parse]. cbn.
  unfold RegExp.testAnchored.
  set (r := RegExp.Many RegExp.dot
            :: RegExp.literal "/tests/" ++ [RegExp.Many RegExp.dot]).
  assert (Hfree : anchorFree r) by repeat constructor.
  assert (Hdot : ∀ l, Forall (λ c, RegExp.dot c = true) l
                      ↔ Forall (λ c, Js.isLineTerminator c = false) l).
  { intros l. apply Forall_proper; [|done]. intros c. unfold RegExp.dot.
    apply negb_true_iff. }
  split.
  - intros [= Htest%bool_decide_eq_true].
    apply (matchAt_anchored r Hfree) in Htest.
    inversion Htest as [| |? ? a s Ha Hs]; subst.
    apply (matches_literal (Js.chars "/tests/") [RegExp.Many RegExp.dot])
      in Hs as (rest & -> & Hrest).
    inversion Hrest as [| |? ? b s Hb Hs]; subst. inversion Hs; subst.
    exists a, b. rewrite app_nil_r. by rewrite <- !Hdot.
  - intros (a & b & -> & Ha & Hb). f_equal. apply bool_decide_eq_true.
    apply (matchAt_anchored r Hfree).
    constructor; [by apply Hdot|].
    apply (matches_literal (Js.chars "/tests/") [RegExp.Many RegExp.dot]).
    exists b. split; [done|].
    rewrite <- (app_nil_r b). constructor; [by apply Hdot|constructor].
Qed.

(** On a path without line terminators the code agrees with the note's
    reading. *)
Lemma matchGlobPattern_tests (path : string) :
  Forall (λ c, Js.isLineTerminator c = false) (Js.chars path) →
  matchesGlob path "**/tests/**" →
  matchGlobPattern path "**/tests/**" = Some true.
Proof.
  intros Hline (a & b & Hpath)%matchesGlob_tests.
  apply matchGlobPattern_tests_iff. exists a, b. split; [done|].
  rewrite Hpath in Hline.
  by apply Forall_app in Hline as [Ha [_ Hb]%Forall_app].
Qed.

Lemma matchesAny_found (relativePath pattern : string) (patterns : list string) :
  pattern ∈ patterns →
  matchGlobPattern relativePath pattern = Some true →
  (∀ other, other ∈ patterns → is_Some (matchGlobPattern relativePath other)) →
  matchesAny relativePath patterns = Some true.
Proof.
  intros Hin Hmatch Hall. induction patterns as [|p patterns IH].
  - by apply elem_of_nil in Hin.
  - cbn [matchesAny].
    destruct (Hall p) as [[|] Hp]; [by left| |]; rewrite Hp; [done|].
    apply elem_of_cons in Hin as [->|Hin]; [congruence|].
    apply IH; [done|]. intros other Hother. apply Hall. by right.
Qed.

(** A file whose relative path has no line terminator and matches
    [**/tests/**] is excluded, wherever the pattern stands among the
    configured ones, as long as the patterns are ones [matchGlobPattern]
    answers for. *)
Lemma shouldExcludeFile_tests (asRelativePath : string → string)
    (filePath : string) (config : FaexConfig) :
  "**/tests/**" ∈ exclude config →
  (∀ other, other ∈ exclude config →
            is_Some (RegExp.parse (Js.chars (globToRegexSource other)))) →
  Forall (λ c, Js.isLineTerminator c = false)
         (Js.chars (asRelativePath filePath)) →
  matchesGlob (asRelativePath filePath) "**/tests/**" →
  shouldExcludeFile asRelativePath filePath config = Some true.
Proof.
  intros Hin Hparse Hline Hglob. unfold shouldExcludeFile.
  apply (matchesAny_found _ "**/tests/**"); [done| |].
  - by apply matchGlobPattern_tests.
  - intros other [r Hr]%Hparse. unfold matchGlobPattern. by rewrite Hr.
Qed.

(** C9 fails on a path with a line feed in a directory name: the path
    matches [**/tests/**] as the note reads the glob, and is not
    excluded. *)
Lemma shouldExcludeFile_line_feed :
  let relativePath := "api" +:+ newline +:+ "v2/tests/conftest.py" in
  matchesGlob relativePath "**/tests/**"
  ∧ matchGlobPattern relativePath "**/tests/**" = Some false
  ∧ shouldExcludeFile (λ _, relativePath) ("/work/" +:+ relativePath)
      defaultConfig
    = Some false.
Proof.
  split; [|split].
  - apply matchesGlob_tests.
    exists (Js.chars ("api" +:+ newline +:+ "v2")), (Js.chars "conftest.py").
    vm_compute. reflexivity.
  - vm_compute. reflexivity.
  - vm_compute. reflexivity.
Qed.

(** ** Globs and the expression they are turned into *)

Lemma replaceAllFrom_skip (p r x rest : list ascii) :
  Js.replaceAllFrom p r (x ++ rest) (length x) = Js.replaceAllFrom p r rest O.
Proof. induction x as [|c x IH]; [done|]. exact IH. Qed.

Lemma startsWith_app (p rest : list ascii) : Js.startsWith p (p ++ rest) = true.
Proof.
  induction p as [|c p IH]; [done|]. cbn. by rewrite Ascii.eqb_refl.
Qed.

(** An occurrence of the searched text is replaced and passed over. *)
Lemma replaceAllFrom_hit (c : ascii) (p r rest : list ascii) :
  Js.replaceAllFrom (c :: p) r ((c :: p) ++ rest) O
  = r ++ Js.replaceAllFrom (c :: p) r rest O.
Proof.
  pose proof (startsWith_app (c :: p) rest) as Hstarts.
  cbn [app] in Hstarts. cbn [app Js.replaceAllFrom].
  rewrite Hstarts. cbn [length Nat.pred].
  by rewrite replaceAllFrom_skip.
Qed.

(** Text without the first character of the searched text is copied. *)
Lemma replaceAllFrom_miss (c : ascii) (p r x rest : list ascii) :
  c ∉ x →
  Js.replaceAllFrom (c :: p) r (x ++ rest) O
  = x ++ Js.replaceAllFrom (c :: p) r rest O.
Proof.
  induction x as [|d x IH]; intros Hnot; [done|].
  apply not_elem_of_cons in Hnot as [Hne Hnot].
  cbn [app Js.replaceAllFrom Js.startsWith].
  apply Ascii.eqb_neq in Hne. rewrite Hne. cbn [andb].
  by rewrite IH.
Qed.

Lemma isSyntax_plain (c : ascii) :
  RegExp.isSyntax c = false →
  c ≠ Js.backslash ∧ c ≠ "."%char ∧ c ≠ "["%char ∧ c ≠ "{"%char
  ∧ c ≠ "*"%char.
Proof. intros H. repeat split; intros ->; discriminate H. Qed.

(** The first replacement: each dot gets its backslash. *)
Lemma pass_dots (ts : list GlobToken) :
  tokenized ts →
  Js.replaceAllFrom ["."%char] (Js.chars escapedDot)
    (render "." "*" "**" ts) O
  = render escapedDot "*" "**" ts.
Proof.
  induction ts as [|t ts IH]; intros Htok; [done|]. cbn [render].
  destruct t as [| |c]; cbn [tokenized] in Htok.
  - rewrite (replaceAllFrom_miss "." [] _ (Js.chars "**")) by not_in_chars.
    by rewrite IH.
  - destruct Htok as [_ Htok].
    rewrite (replaceAllFrom_miss "." [] _ (Js.chars "*")) by not_in_chars.
    by rewrite IH.
  - destruct Htok as [Hc Htok]. cbn [renderToken].
    destruct (Ascii.eqb_spec c ".") as [->|Hne].
    + rewrite (replaceAllFrom_hit "." [] _ _). by rewrite IH.
    + rewrite (replaceAllFrom_miss "." [] _ [c]) by not_in_chars.
      by rewrite IH.
Qed.

(** The second: each double star becomes the mark. A single star is not
    followed by a star and stays. *)
Lemma pass_globstars (ts : list GlobToken) :
  tokenized ts →
  Js.replaceAllFrom ["*"%char; "*"%char] (Js.chars "{{GLOBSTAR}}")
    (render escapedDot "*" "**" ts) O
  = render escapedDot "*" "{{GLOBSTAR}}" ts.
Proof.
  induction ts as [|t ts IH]; intros Htok; [done|]. cbn [render].
  destruct t as [| |c]; cbn [tokenized] in Htok.
  - change (renderToken escapedDot "*" "**" GlobStar)
      with ("*"%char :: ["*"%char]).
    rewrite (replaceAllFrom_hit "*" ["*"%char]). by rewrite IH.
  - destruct Htok as [Hnext Htok]. rewrite <- (IH Htok).
    destruct ts as [|[| |c] ts]; try done.
    cbn [tokenized] in Htok. destruct Htok as [Hc _].
    cbn [render renderToken].
    destruct (Ascii.eqb_spec c ".") as [->|Hdot]; [done|].
    cbn [app Js.chars list_ascii_of_string Js.replaceAllFrom Js.startsWith].
    apply Ascii.eqb_neq in Hc. rewrite Ascii.eqb_sym in Hc.
    by rewrite Ascii.eqb_refl, Hc.
  - destruct Htok as [Hc Htok]. cbn [renderToken].
    destruct (Ascii.eqb_spec c ".") as [->|Hne].
    + rewrite (replaceAllFrom_miss "*" ["*"%char] _ (Js.chars escapedDot))
        by not_in_chars.
      by rewrite IH.
    + rewrite (replaceAllFrom_miss "*" ["*"%char] _ [c]) by not_in_chars.
      by rewrite IH.
Qed.

(** The third: each single star becomes the class of all but the
    slash. *)
Lemma pass_stars (ts : list GlobToken) :
  tokenized ts →
  Js.replaceAllFrom ["*"%char] (Js.chars "[^/]*")
    (render escapedDot "*" "{{GLOBSTAR}}" ts) O
  = render escapedDot "[^/]*" "{{GLOBSTAR}}" ts.
Proof.
  induction ts as [|t ts IH]; intros Htok; [done|]. cbn [render].
  destruct t as [| |c]; cbn [tokenized] in Htok.
  - rewrite (replaceAllFrom_miss "*" [] _ (Js.chars "{{GLOBSTAR}}"))
      by not_in_chars.
    by rewrite IH.
  - destruct Htok as [_ Htok].
    change (renderToken escapedDot "*" "{{GLOBSTAR}}" Star) with ["*"%char].
    rewrite (replaceAllFrom_hit "*" []). by rewrite IH.
  - destruct Htok as [Hc Htok]. cbn [renderToken].
    destruct (Ascii.eqb_spec c ".") as [->|Hne].
    + rewrite (replaceAllFrom_miss "*" [] _ (Js.chars escapedDot))
        by not_in_chars.
      by rewrite IH.
    + rewrite (replaceAllFrom_miss "*" [] _ [c]) by not_in_chars.
      by rewrite IH.
Qed.

(** The fourth: each mark becomes the class of all that a dot takes. *)
Lemma pass_marks (ts : list GlobToken) :
  Forall plainOk ts →
  Js.replaceAllFrom ("{"%char :: Js.chars "{GLOBSTAR}}") (Js.chars ".*")
    (render escapedDot "[^/]*" "{{GLOBSTAR}}" ts) O
  = render escapedDot "[^/]*" ".*" ts.
Proof.
  induction ts as [|t ts IH]; intros Hok; [done|].
  apply Forall_cons in Hok as [Ht Hok]. cbn [render].
  destruct t as [| |c]; cbn [plainOk] in Ht.
  - change (renderToken escapedDot "[^/]*" "{{GLOBSTAR}}" GlobStar)
      with ("{"%char :: Js.chars "{GLOBSTAR}}").
    rewrite replaceAllFrom_hit. by rewrite IH.
  - rewrite (replaceAllFrom_miss "{" _ _ (Js.chars "[^/]*")) by not_in_chars.
    by rewrite IH.
  - cbn [renderToken].
    destruct (Ascii.eqb_spec c ".") as [->|Hne].
    + rewrite (replaceAllFrom_miss "{" _ _ (Js.chars escapedDot))
        by not_in_chars.
      by rewrite IH.
    + destruct Ht as [Ht|Ht]; [|done].
      apply isSyntax_plain in Ht as (_ & _ & _ & Hbrace & _).
      rewrite (replaceAllFrom_miss "{" _ _ [c]) by not_in_chars.
      by rewrite IH.
Qed.

(** The constructor reads what the replacements wrote as the atoms of the
    tokens. *)
Lemma parse_render (ts : list GlobToken) :
  tokenized ts → Forall plainOk ts →
  RegExp.parse (render escapedDot "[^/]*" ".*" ts) = Some (globAtom <$> ts).
Proof.
  induction ts as [|t ts IH]; intros Htok Hok; [done|].
  apply Forall_cons in Hok as [Ht Hok]. cbn [render fmap list_fmap].
  destruct t as [| |c]; cbn [tokenized plainOk] in Htok, Ht.
  - cbn. by rewrite (IH Htok Hok).
  - destruct Htok as [_ Htok]. cbn. by rewrite (IH Htok Hok).
  - destruct Htok as [Hstar Htok]. cbn [renderToken].
    destruct (Ascii.eqb_spec c ".") as [->|Hne].
    + cbn. by rewrite (IH Htok Hok).
    + destruct Ht as [Ht|Ht]; [|done].
      pose proof (isSyntax_plain c Ht) as (Hb & Hd & Hk & _ & _).
      cbn [app RegExp.parse].
      apply Ascii.eqb_neq in Hb, Hd, Hk. rewrite Hb, Hd, Hk, Ht.
      by rewrite (IH Htok Hok).
Qed.

Lemma globTokens_plain (c : ascii) (rest : list ascii) :
  c ≠ "*"%char → globTokens (c :: rest) = Plain c :: globTokens rest.
Proof.
  intros Hc. cbn [globTokens]. apply Ascii.eqb_neq in Hc. by rewrite Hc.
Qed.

Lemma globTokens_globstar (rest : list ascii) :
  globTokens ("*"%char :: "*"%char :: rest) = GlobStar :: globTokens rest.
Proof. done. Qed.

Lemma globTokens_star (d : ascii) (rest : list ascii) :
  d ≠ "*"%char →
  globTokens ("*"%char :: d :: rest) = Star :: Plain d :: globTokens rest.
Proof.
  intros Hd. cbn [globTokens]. apply Ascii.eqb_neq in Hd.
  by rewrite Ascii.eqb_refl, Hd.
Qed.

(** [globTokens] cuts a glob into the tokens it is the text of. *)
Lemma globTokens_facts (pattern : list ascii) :
  (render "." "*" "**" (globTokens pattern) = pattern
   ∧ tokenized (globTokens pattern)
   ∧ (Forall (λ c, simpleGlobChar c = true) pattern →
      Forall plainOk (globTokens pattern)))
  ∧ ∀ c,
      render "." "*" "**" (globTokens (c :: pattern)) = c :: pattern
      ∧ tokenized (globTokens (c :: pattern))
      ∧ (Forall (λ c, simpleGlobChar c = true) (c :: pattern) →
         Forall plainOk (globTokens (c :: pattern))).
Proof.
  assert (Hplain : ∀ c, c ≠ "*"%char → simpleGlobChar c = true →
                        plainOk (Plain c)).
  { intros c Hstar Hc. unfold simpleGlobChar in Hc. cbn.
    apply Ascii.eqb_neq in Hstar. rewrite Hstar, orb_false_r in Hc.
    apply orb_true_iff in Hc as [Hc|Hc].
    - left. by apply negb_true_iff.
    - right. by apply Ascii.eqb_eq. }
  assert (Hrender : ∀ c rest,
            renderToken "." "*" "**" (Plain c) ++ rest = c :: rest).
  { intros c rest. cbn. by destruct (Ascii.eqb_spec c ".") as [->|_]. }
  induction pattern as [|d pattern [IH IHcons]].
  - split; [done|]. intros c.
    destruct (decide (c = "*"%char)) as [->|Hc].
    { split; [done|split; [done|]]. intros _. by repeat constructor. }
    rewrite globTokens_plain by done. cbn [render tokenized globTokens].
    rewrite Hrender. split; [done|split; [done|]].
    intros [Hok _]%Forall_cons. constructor; [by apply Hplain|done].
  - split; [apply IHcons|]. intros c.
    destruct (IHcons d) as (Hr & Ht & Hp). destruct IH as (Hr' & Ht' & Hp').
    destruct (decide (c = "*"%char)) as [->|Hc].
    + destruct (decide (d = "*"%char)) as [->|Hd].
      * rewrite globTokens_globstar. cbn [render tokenized]. rewrite Hr'.
        split; [done|split; [done|]].
        intros [_ [_ Hok]%Forall_cons]%Forall_cons.
        constructor; [done|by apply Hp'].
      * rewrite globTokens_plain in Hr, Ht, Hp by done.
        rewrite globTokens_star by done.
        change (render "." "*" "**" (Star :: Plain d :: globTokens pattern))
          with ("*"%char :: render "." "*" "**" (Plain d :: globTokens pattern)).
        rewrite Hr. split; [done|split; [by split|]].
        intros [_ Hok]%Forall_cons. constructor; [done|by apply Hp].
    + rewrite globTokens_plain by done. cbn [render tokenized].
      rewrite Hrender, Hr. split; [done|split; [done|]].
      intros [Hok Hrest]%Forall_cons.
      constructor; [by apply Hplain|by apply Hp].
Qed.

Lemma chars_str (l : list ascii) : Js.chars (Js.str l) = l.
Proof. apply list_ascii_of_string_of_list_ascii. Qed.

Lemma globToRegexSource_render (pattern : string) :
  simpleGlob pattern →
  Js.chars (globToRegexSource pattern)
  = render escapedDot "[^/]*" ".*" (globTokens (Js.chars pattern)).
Proof.
  intros Hsimple.
  destruct (globTokens_facts (Js.chars pattern)) as [(Hr & Htok & Hok) _].
  specialize (Hok Hsimple).
  unfold globToRegexSource, Js.replaceAll. rewrite !chars_str.
  rewrite <- Hr at 1.
  change (Js.chars ".") with ["."%char].
  change (String Js.backslash ".") with escapedDot.
  rewrite (pass_dots _ Htok).
  change (Js.chars "**") with ["*"%char; "*"%char].
  rewrite (pass_globstars _ Htok).
  change (Js.chars "*") with ["*"%char].
  rewrite (pass_stars _ Htok).
  change (Js.chars "{{GLOBSTAR}}") with ("{"%char :: Js.chars "{GLOBSTAR}}") at 1.
  by rewrite (pass_marks _ Hok).
Qed.

Lemma anchorFree_globAtoms (pattern : string) : anchorFree (globAtoms pattern).
Proof.
  unfold globAtoms, anchorFree. apply Forall_fmap, Forall_forall.
  by intros [| |c] _.
Qed.

Lemma matchGlobPattern_globAtoms (path pattern : string) :
  simpleGlob pattern →
  matchGlobPattern path pattern
  = Some (RegExp.testAnchored (globAtoms pattern) path).
Proof.
  intros Hsimple. unfold matchGlobPattern.
  rewrite (globToRegexSource_render _ Hsimple).
  destruct (globTokens_facts (Js.chars pattern)) as [(_ & Htok & Hok) _].
  by rewrite (parse_render _ Htok (Hok Hsimple)).
Qed.

Lemma testAnchored_matches (r : RegExp.Pattern) (path : string) :
  anchorFree r →
  RegExp.testAnchored r path = true ↔ matches r (Js.chars path).
Proof.
  intros Hfree. unfold RegExp.testAnchored. rewrite bool_decide_eq_true.
  by apply matchAt_anchored.
Qed.

(** X1. For a glob of plain characters, dots, [*] and [**],
    [matchGlobPattern] always answers, and it answers true exactly for
    the paths that are, token by token: a run of code units other than
    line terminators for each [**], a run of code units other than the
    slash for each [*], and the character itself for every other one. *)
Theorem matchGlobPattern_simple (path pattern : string) :
  simpleGlob pattern →
  ∃ answer,
    matchGlobPattern path pattern = Some answer
    ∧ (answer = true ↔ matches (globAtoms pattern) (Js.chars path)).
Proof.
  intros Hsimple. eexists. split; [by apply matchGlobPattern_globAtoms|].
  apply testAnchored_matches, anchorFree_globAtoms.
Qed.

Lemma matchGlobPattern_simple_witness :
  ∃ answer,
    matchGlobPattern "api/test_users.py" "**/test_*.py" = Some answer
    ∧ (answer = true
       ↔ matches (globAtoms "**/test_*.py") (Js.chars "api/test_users.py")).
Proof.
  apply (matchGlobPattern_simple "api/test_users.py" "**/test_*.py").
  unfold simpleGlob. by repeat constructor.
Defined.

Lemma matches_globMatches (ts : list GlobToken) :
  ∀ s, matches (globAtom <$> ts) s → globMatches ts s.
Proof.
  induction ts as [|t ts IH]; intros s H; cbn [fmap list_fmap] in H.
  - inversion H. constructor.
  - destruct t as [| |c]; cbn [globAtom] in H.
    + inversion H as [| |? ? seg s' Hseg Hs']; subst.
      apply glob_globstar, IH, Hs'.
    + inversion H as [| |? ? seg s' Hseg Hs']; subst.
      apply glob_star; [|apply IH, Hs'].
      eapply Forall_impl; [exact Hseg|]. intros c Hc ->. discriminate Hc.
    + inversion H as [|? ? c' s' Hc Hs'|]; subst.
      apply Ascii.eqb_eq in Hc as <-. apply glob_plain, IH, Hs'.
Qed.

Lemma globMatches_matches (ts : list GlobToken) (s : list ascii) :
  globMatches ts s →
  Forall (λ c, Js.isLineTerminator c = false) s →
  matches (globAtom <$> ts) s.
Proof.
  induction 1 as [|c ts s _ IH|seg ts s Hseg _ IH|seg ts s _ IH];
    intros Hline; cbn [fmap list_fmap globAtom].
  - constructor.
  - apply Forall_cons in Hline as [_ Hline].
    constructor; [apply Ascii.eqb_refl|by apply IH].
  - apply Forall_app in Hline as [_ Hline].
    constructor; [|by apply IH].
    eapply Forall_impl; [exact Hseg|]. intros c Hc. unfold RegExp.notChar.
    apply negb_true_iff, Ascii.eqb_neq. congruence.
  - apply Forall_app in Hline as [Hseg Hline].
    constructor; [|by apply IH].
    eapply Forall_impl; [exact Hseg|]. intros c Hc. unfold RegExp.dot.
    by rewrite Hc.
Qed.

(** X2. For such a glob, a path the code matches is matched by the glob
    read the usual way ([**] any run of characters, [*] any run without
    a slash), and on paths without line terminators the two agree. *)
Theorem matchGlobPattern_glob (path pattern : string) :
  simpleGlob pattern →
  (matchGlobPattern path pattern = Some true → matchesGlob path pattern)
  ∧ (Forall (λ c, Js.isLineTerminator c = false) (Js.chars path) →
     matchesGlob path pattern →
     matchGlobPattern path pattern = Some true).
Proof.
  intros Hsimple. rewrite (matchGlobPattern_globAtoms _ _ Hsimple).
  unfold RegExp.testAnchored, matchesGlob. split.
  - intros [= Htest%bool_decide_eq_true].
    apply (matchAt_anchored _ (anchorFree_globAtoms pattern)) in Htest.
    by apply matches_globMatches.
  - intros Hline Hglob. f_equal. apply bool_decide_eq_true.
    apply (matchAt_anchored _ (anchorFree_globAtoms pattern)).
    by apply globMatches_matches.
Qed.

Lemma matchGlobPattern_glob_witness :
  matchesGlob "api/test_users.py" "**/test_*.py".
Proof.
  apply (proj1 (matchGlobPattern_glob "api/test_users.py" "**/test_*.py"
                  ltac:(unfold simpleGlob; by repeat constructor))).
  vm_compute. reflexivity.
Defined.

Lemma matchesAny_simple (relativePath : string) (patterns : list string) :
  Forall simpleGlob patterns →
  ∃ answer,
    matchesAny relativePath patterns = Some answer
    ∧ (answer = true ↔
       ∃ pattern, pattern ∈ patterns
                  ∧ matches (globAtoms pattern) (Js.chars relativePath)).
Proof.
  induction 1 as [|pattern patterns Hsimple _ IH].
  - exists false. split; [done|]. split; [done|].
    by intros (pattern & Hin%elem_of_nil & _).
  - cbn [matchesAny].
    rewrite (matchGlobPattern_globAtoms _ _ Hsimple).
    pose proof (testAnchored_matches (globAtoms pattern) relativePath
                  (anchorFree_globAtoms pattern)) as Hhere.
    destruct (RegExp.testAnchored (globAtoms pattern) relativePath).
    + exists true. split; [done|]. split; [|done]. intros _.
      exists pattern. split; [by left|by apply Hhere].
    + destruct IH as (answer & -> & Hanswer). exists answer.
      split; [done|]. rewrite Hanswer. split.
      * intros (other & Hin & Hmatch). exists other. split; [by right|done].
      * intros (other & [->|Hin]%elem_of_cons & Hmatch).
        -- apply Hhere in Hmatch. discriminate Hmatch.
        -- by exists other.
Qed.

(** X3. When every exclusion pattern is such a glob, [shouldExcludeFile]
    always answers, and it answers true exactly when some pattern of the
    list matches the relative path, whatever the order of the list. With
    no pattern it answers false. *)
Theorem shouldExcludeFile_simple (asRelativePath : string → string)
    (filePath : string) (config : FaexConfig) :
  Forall simpleGlob (exclude config) →
  ∃ answer,
    shouldExcludeFile asRelativePath filePath config = Some answer
    ∧ (answer = true ↔
       ∃ pattern,
         pattern ∈ exclude config
         ∧ matches (globAtoms pattern) (Js.chars (asRelativePath filePath)))
    ∧ (exclude config = [] → answer = false).
Proof.
  intros Hsimple. unfold shouldExcludeFile.
  destruct (matchesAny_simple (asRelativePath filePath) _ Hsimple)
    as (answer & Hanswer & Hiff).
  exists answer. split; [done|]. split; [done|].
  intros Hnone. rewrite Hnone in Hanswer. by injection Hanswer.
Qed.

Lemma shouldExcludeFile_simple_witness :
  ∃ answer,
    shouldExcludeFile (λ p, p) "api/test_users.py" defaultConfig = Some answer
    ∧ (answer = true ↔
       ∃ pattern,
         pattern ∈ exclude defaultConfig
         ∧ matches (globAtoms pattern) (Js.chars "api/test_users.py"))
    ∧ (exclude defaultConfig = [] → answer = false).
Proof.
  apply (shouldExcludeFile_simple (λ p, p) "api/test_users.py" defaultConfig).
  repeat constructor.
Defined.

Lemma chars_app (s t : string) : Js.chars (s +:+ t) = Js.chars s ++ Js.chars t.
Proof.
  unfold Js.chars. induction s as [|c s IH]; [done|].
  change (String c s +:+ t) with (String c (s +:+ t)).
  cbn [list_ascii_of_string app]. by f_equal.
Qed.

Lemma filter_char_absent (c : ascii) (l : list ascii) :
  c ∉ l → filter (λ d, d = c) l = [].
Proof.
  induction l as [|x l IH]; intros Hnot; [done|].
  apply not_elem_of_cons in Hnot as [Hne Hnot].
  rewrite filter_cons_False by congruence. by apply IH.
Qed.

Lemma matchGlobPattern_tests_answers (path : string) :
  is_Some (matchGlobPattern path "**/tests/**").
Proof.
  unfold matchGlobPattern. rewrite globToRegexSource_tests. by cbn.
Qed.

(** X4. The pattern [**/tests/**] asks for a slash before the directory
    name: a file right under a tests directory at the root of the
    workspace does not match it. *)
Theorem matchGlobPattern_tests_at_root (name : string) :
  "/"%char ∉ Js.chars name →
  matchGlobPattern ("tests/" +:+ name) "**/tests/**" = Some false.
Proof.
  intros Hname.
  destruct (matchGlobPattern_tests_answers ("tests/" +:+ name))
    as [[|] Hanswer]; [exfalso|done].
  apply matchGlobPattern_tests_iff in Hanswer as (a & b & Hsplit & _).
  rewrite chars_app in Hsplit.
  apply (f_equal (λ l, length (filter (λ c, c = "/"%char) l))) in Hsplit.
  rewrite !filter_app, !length_app in Hsplit.
  rewrite (filter_char_absent _ _ Hname) in Hsplit.
  replace (filter (λ c, c = "/"%char) (Js.chars "tests/"))
    with ["/"%char] in Hsplit by (vm_compute; reflexivity).
  replace (filter (λ c, c = "/"%char) (Js.chars "/tests/"))
    with ["/"%char; "/"%char] in Hsplit by (vm_compute; reflexivity).
  cbn [length] in Hsplit. lia.
Qed.

Lemma matchGlobPattern_tests_at_root_witness :
  matchGlobPattern ("tests/" +:+ "test_api.py") "**/tests/**" = Some false.
Proof.
  apply (matchGlobPattern_tests_at_root "test_api.py").
  vm_compute. intros Hin.
  repeat (apply elem_of_cons in Hin as [Hin|Hin]; [discriminate Hin|]).
  by apply elem_of_nil in Hin.
Defined.

(** ** Edits stay inside the document *)

Lemma lineAt_is_Some (document : TextDocument) (n : Z) :
  is_Some (lineAt document n) ↔ 0 ≤ n < lineCount document.
Proof.
  unfold lineAt, lineCount. destruct (Z.ltb_spec n 0) as [Hneg|Hpos].
  - split; [by intros [? ?]|lia].
  - rewrite lookup_lt_is_Some. lia.
Qed.

Lemma scanLines_bounds (lines : list string) :
  ∀ line st found,
    scanLines lines line st = Some found →
    line ≤ found < line + Z.of_nat (length lines).
Proof.
  induction lines as [|text lines IH]; intros line st found Hscan; [done|].
  cbn [scanLines length] in *.
  destruct (scanText None (Js.chars text) st) as [st'|].
  - apply IH in Hscan. lia.
  - injection Hscan as <-. lia.
Qed.

(** X5. From a start line on, the scan answers a line of the document at
    or after the start line; when the start line is past the end of the
    document the answer is the start line itself. *)
Theorem findDecoratorEndLine_bounds (document : TextDocument) (startLine : Z) :
  0 ≤ startLine →
  ∃ endLine,
    findDecoratorEndLine document startLine = Returns endLine
    ∧ startLine ≤ endLine
    ∧ (startLine < lineCount document → endLine < lineCount document)
    ∧ (lineCount document ≤ startLine → endLine = startLine).
Proof.
  intros Hstart. unfold findDecoratorEndLine.
  destruct (Z.ltb_spec startLine 0) as [Hneg|_]; [lia|].
  destruct (scanLines _ startLine scanStart) as [found|] eqn:Hscan.
  - apply scanLines_bounds in Hscan. rewrite length_drop in Hscan.
    unfold lineCount. exists found. repeat split; lia.
  - exists startLine. repeat split; [lia|done].
Qed.

Lemma findDecoratorEndLine_bounds_witness :
  ∃ endLine,
    findDecoratorEndLine ["@router.get("; ")"; "def read_item(): pass"] 0
    = Returns endLine
    ∧ 0 ≤ endLine
    ∧ (0 < lineCount ["@router.get("; ")"; "def read_item(): pass"] →
       endLine < lineCount ["@router.get("; ")"; "def read_item(): pass"])
    ∧ (lineCount ["@router.get("; ")"; "def read_item(): pass"] ≤ 0 →
       endLine = 0).
Proof.
  apply (findDecoratorEndLine_bounds
           ["@router.get("; ")"; "def read_item(): pass"] 0).
  lia.
Defined.

Lemma lastIndexOfFrom_bounds (c : ascii) (s : list ascii) :
  ∀ i, 0 ≤ i →
       Js.lastIndexOfFrom [c] s i = -1
       ∨ (i ≤ Js.lastIndexOfFrom [c] s i < i + Z.of_nat (length s)
          ∧ s !! Z.to_nat (Js.lastIndexOfFrom [c] s i - i) = Some c).
Proof.
  induction s as [|x s IH]; intros i Hi; [by left|].
  cbn [Js.lastIndexOfFrom length].
  destruct (IH (i + 1) ltac:(lia)) as [Hnone|[Hrange Hchar]].
  - rewrite Hnone. cbn [Z.leb Z.compare Js.startsWith].
    destruct (Ascii.eqb_spec c x) as [<-|Hne]; [right|by left].
    cbn [andb]. rewrite Z.sub_diag. split; [lia|done].
  - right. destruct (Z.leb_spec 0 (Js.lastIndexOfFrom [c] s (i + 1))); [|lia].
    split; [lia|].
    replace (Z.to_nat (Js.lastIndexOfFrom [c] s (i + 1) - i))
      with (S (Z.to_nat (Js.lastIndexOfFrom [c] s (i + 1) - (i + 1))))
      by lia.
    done.
Qed.

Lemma indexOfFrom_bounds (p pre rest : list ascii) :
  ∀ i, i ≤ Js.indexOfFrom p (pre ++ p ++ rest) i ≤ i + Z.of_nat (length pre).
Proof.
  induction pre as [|c pre IH]; intros i.
  - cbn [app length].
    destruct (p ++ rest) eqn:Hs; cbn [Js.indexOfFrom];
      rewrite <- ?Hs, startsWith_app; lia.
  - cbn [app Js.indexOfFrom length].
    destruct (Js.startsWith p (c :: pre ++ p ++ rest)); [lia|].
    specialize (IH (i + 1)). lia.
Qed.

Lemma jsLength_chars (s : string) :
  Js.jsLength s = Z.of_nat (length (Js.chars s)).
Proof.
  unfold Js.jsLength. f_equal.
  induction s as [|c s IH]; [done|]. cbn. by f_equal.
Qed.

Lemma scan_end_in_document (document : TextDocument) (startLine : Z) :
  0 ≤ startLine →
  ∃ endLine,
    findDecoratorEndLine document startLine = Returns endLine
    ∧ (is_Some (lineAt document endLine) ↔ startLine < lineCount document).
Proof.
  intros Hstart. unfold findDecoratorEndLine.
  destruct (Z.ltb_spec startLine 0) as [Hneg|_]; [lia|].
  destruct (scanLines _ startLine scanStart) as [found|] eqn:Hscan.
  - apply scanLines_bounds in Hscan. rewrite length_drop in Hscan.
    exists found. split; [done|]. rewrite lineAt_is_Some.
    unfold lineCount. lia.
  - exists startLine. split; [done|]. rewrite lineAt_is_Some. lia.
Qed.

(** X6. [createAddExceptionEdit] throws exactly when the line it starts
    from (the exceptions line if the endpoint has one, else the decorator
    line) is not a line of the document. Otherwise it returns at most one
    edit, and that edit lies on one line of the document, within its
    text. *)
Theorem createAddExceptionEdit_in_document (document : TextDocument)
    (endpoint : EndpointInfo) (newExceptions : list string) :
  (createAddExceptionEdit document endpoint newExceptions = Throws
   ↔ ¬ (1 ≤ editLine endpoint ≤ lineCount document))
  ∧ ∀ edits,
      createAddExceptionEdit document endpoint newExceptions = Returns edits →
      (length edits ≤ 1)%nat ∧ Forall (editInDocument document) edits.
Proof.
  unfold editLine.
  destruct (exceptionsLine endpoint) as [excLine|] eqn:Hexc.
  - (* the list exists *)
    destruct (lineAt document (excLine - 1)) as [lineText|] eqn:Hline.
    + assert (Hin : 0 ≤ excLine - 1 < lineCount document)
        by (apply lineAt_is_Some; by rewrite Hline).
      destruct (createAddExceptionEdit_replace document endpoint newExceptions
                  excLine lineText Hexc Hline)
        as [[_ Hedit]|(pre & mid & post & Htext & Hmid & _ & Hedit)];
        rewrite Hedit.
      * split; [split; [done|intros ?; exfalso; lia]|].
        intros edits [= <-]. split; [cbn; lia|constructor].
      * split; [split; [done|intros ?; exfalso; lia]|].
        intros edits [= <-]. split; [cbn; lia|].
        constructor; [|constructor]. split; [done|].
        exists lineText. split; [done|].
        apply matches_exceptionsRegExp in Hmid
          as (ws1 & ws2 & body & Hshape & _).
        pose proof (indexOfFrom_bounds (Js.chars "exceptions") pre
                      ((ws1 ++ "="%char :: ws2
                        ++ "["%char :: body ++ ["]"%char]) ++ post) 0)
          as Hindex.
        unfold Js.indexOf. rewrite Htext, Hshape, <- !app_assoc.
        rewrite <- !app_assoc in Hindex.
        rewrite jsLength_chars, Htext, Hshape, !length_app. lia.
    + assert (Hout : ¬ 0 ≤ excLine - 1 < lineCount document).
      { rewrite <- lineAt_is_Some, Hline. by intros [? ?]. }
      unfold createAddExceptionEdit. rewrite Hexc, Hline.
      split; [split; [intros _; lia|done]|done].
  - (* the list is to be added *)
    unfold createAddExceptionEdit. rewrite Hexc.
    destruct (Z.ltb_spec (decoratorLine endpoint - 1) 0) as [Hneg|Hpos].
    + rewrite findDecoratorEndLine_negative by done.
      split; [split; [intros _; lia|done]|done].
    + destruct (scan_end_in_document document _ Hpos)
        as (endLine & -> & Hend).
      destruct (lineAt document endLine) as [endLineText|] eqn:Hline.
      * assert (Hin : decoratorLine endpoint - 1 < lineCount document)
          by (apply Hend; by eexists).
        pose proof (lastIndexOfFrom_bounds ")" (Js.chars endLineText) 0
                      ltac:(lia)) as Hparen.
        change (Js.lastIndexOfFrom [")"%char] (Js.chars endLineText) 0)
          with (Js.lastIndexOf endLineText ")") in Hparen.
        destruct (Z.leb_spec 0 (Js.lastIndexOf endLineText ")")) as [Hfound|Hnone].
        -- split; [split; [done|intros ?; exfalso; lia]|].
           intros edits [= <-]. split; [cbn; lia|].
           constructor; [|constructor].
           exists endLineText. split; [done|].
           rewrite jsLength_chars.
           destruct Hparen as [Hnone|[Hrange _]]; lia.
        -- split; [split; [done|intros ?; exfalso; lia]|].
           intros edits [= <-]. split; [cbn; lia|constructor].
      * assert (Hout : ¬ decoratorLine endpoint - 1 < lineCount document).
        { rewrite <- Hend. by intros [? ?]. }
        split; [split; [intros _; lia|done]|done].
Qed.

(** ** Results and the cache of the analyzer *)

(* facts *)
Lemma hasIssues_spec (endpoint : EndpointInfo) :
  hasIssues endpoint = true ↔ getUndeclaredExceptions endpoint ≠ [].
Proof.
  unfold hasIssues. rewrite bool_decide_eq_true.
  destruct (getUndeclaredExceptions endpoint); cbn; split; (done || lia).
Qed.

Lemma total_from (l : list EndpointInfo) :
  ∀ start,
    foldl (λ sum endpoint,
             sum + Z.of_nat (length (getUndeclaredExceptions endpoint)))
          start l
    = start + Z.of_nat (length (l ≫= getUndeclaredExceptions)).
Proof.
  induction l as [|e l IH]; intros start; cbn [foldl]; [cbn; lia|].
  rewrite IH. rewrite bind_cons, length_app. lia.
Qed.

(** X7. The three summaries of a result agree: [resultHasIssues] holds
    exactly when [getTotalUndeclared] is positive, exactly when
    [getEndpointsWithIssues] is not empty; and the total is the number of
    undeclared exceptions over all endpoints. *)
Theorem result_summaries_agree (result : AnalysisResult) :
  (resultHasIssues result = true ↔ 0 < getTotalUndeclared result)
  ∧ (resultHasIssues result = true ↔ getEndpointsWithIssues result ≠ [])
  ∧ getTotalUndeclared result
    = Z.of_nat (length (endpoints result ≫= getUndeclaredExceptions)).
Proof.
  unfold resultHasIssues, getTotalUndeclared, getEndpointsWithIssues.
  rewrite total_from, Z.add_0_l.
  induction (endpoints result) as [|e l (IHtotal & IHlist & _)].
  - repeat split; cbn; (done || lia).
  - cbn [existsb]. rewrite orb_true_iff, bind_cons, length_app.
    pose proof (hasIssues_spec e) as He.
    split; [|split; [|done]].
    + rewrite IHtotal, He.
      destruct (getUndeclaredExceptions e); cbn [length]; split.
      * intros [?|?]; [done|lia].
      * intros ?. right. lia.
      * intros _. lia.
      * intros _. by left.
    + rewrite IHlist. destruct (hasIssues e) eqn:Hissues.
      * rewrite filter_cons_True by done. split; [done|]. intros _. by left.
      * rewrite filter_cons_False by (by rewrite Hissues).
        split; [intros [?|?]; done|]. intros ?. by right.
Qed.

Lemma convertEndpoint_undeclared (faexEndpoint : FaexEndpoint) :
  getUndeclaredExceptions (convertEndpoint faexEndpoint)
  = convertException <$> undeclared_exceptions faexEndpoint.
Proof. done. Qed.

Lemma bind_convertEndpoint (l : list FaexEndpoint) :
  (convertEndpoint <$> l) ≫= getUndeclaredExceptions
  = convertException <$> (l ≫= undeclared_exceptions).
Proof.
  induction l as [|fe l IH]; [done|].
  rewrite fmap_cons, !bind_cons, fmap_app, IH. done.
Qed.

(** X8. In the analysis of a document made from the tool's output, every
    endpoint the tool printed is there, in order; the total of undeclared
    exceptions is the number of entries the tool printed; and the
    analyzer's own [getEndpointsWithIssues] and the one of [types.ts]
    both select the endpoints for which the tool printed at least one. *)
Theorem analyzeDocument_from_tool (fsPath : string) (output : FaexJsonOutput)
    (cache : gmap string (list EndpointInfo)) :
  let analysis := (analyzeDocument false fsPath (Some output) cache).1 in
  let withIssues :=
    convertEndpoint
      <$> filter (λ fe, undeclared_exceptions fe ≠ []) (out_endpoints output) in
  endpoints analysis = convertEndpoint <$> out_endpoints output
  ∧ getTotalUndeclared analysis
    = Z.of_nat (length (out_endpoints output ≫= undeclared_exceptions))
  ∧ getEndpointsWithIssues analysis = withIssues
  ∧ EndpointAnalyzer.getEndpointsWithIssues analysis = withIssues
  ∧ message <$> errors analysis = out_errors output.
Proof.
  cbn zeta. cbn [analyzeDocument fst endpoints errors].
  split; [done|]. split; [|split; [|split]].
  - unfold getTotalUndeclared. cbn [endpoints].
    by rewrite total_from, bind_convertEndpoint, length_fmap, Z.add_0_l.
  - unfold getEndpointsWithIssues. cbn [endpoints].
    induction (out_endpoints output) as [|fe l IH]; [done|].
    rewrite fmap_cons.
    destruct (undeclared_exceptions fe) as [|x xs] eqn:Hfe.
    + rewrite (filter_cons_False _ fe)
        by (rewrite Hfe; intros Hne; by apply Hne).
      rewrite filter_cons_False; [done|].
      unfold hasIssues. by rewrite convertEndpoint_undeclared, Hfe.
    + rewrite (filter_cons_True _ fe) by (by rewrite Hfe).
      rewrite filter_cons_True; [by rewrite IH|].
      unfold hasIssues. by rewrite convertEndpoint_undeclared, Hfe.
  - unfold EndpointAnalyzer.getEndpointsWithIssues. cbn [endpoints].
    induction (out_endpoints output) as [|fe l IH]; [done|].
    rewrite fmap_cons.
    destruct (undeclared_exceptions fe) as [|x xs] eqn:Hfe.
    + rewrite (filter_cons_False _ fe)
        by (rewrite Hfe; intros Hne; by apply Hne).
      rewrite filter_cons_False; [done|].
      unfold EndpointAnalyzer.hasUndeclared. cbn. by rewrite Hfe.
    + rewrite (filter_cons_True _ fe) by (by rewrite Hfe).
      rewrite filter_cons_True; [by rewrite IH|].
      unfold EndpointAnalyzer.hasUndeclared. cbn. by rewrite Hfe.
  - rewrite <- list_fmap_compose. apply list_fmap_id.
Qed.

(** X9. The analyzer's cache. After a document is analysed from the
    tool's output, [getCachedEndpoints] gives for its path the endpoints
    of the analysis, and for every other path what it gave before. An
    excluded document and a null result leave the cache as it was, so the
    endpoints of an earlier run stay. [clearCache] with a path that is
    not empty forgets that path and only it; with no path, or with the
    empty path, it forgets every path. *)
Theorem analyzer_cache (excluded : bool) (fsPath : string)
    (cliResult : option FaexJsonOutput)
    (cache : gmap string (list EndpointInfo)) (other : string) :
  let after := (analyzeDocument excluded fsPath cliResult cache).2 in
  (∀ output,
      excluded = false → cliResult = Some output →
      EndpointAnalyzer.getCachedEndpoints fsPath after
      = Some (endpoints (analyzeDocument excluded fsPath cliResult cache).1)
      ∧ (other ≠ fsPath →
         EndpointAnalyzer.getCachedEndpoints other after
         = EndpointAnalyzer.getCachedEndpoints other cache))
  ∧ (excluded = true ∨ cliResult = None → after = cache)
  ∧ (fsPath ≠ "" →
     EndpointAnalyzer.getCachedEndpoints fsPath
       (EndpointAnalyzer.clearCache (Some fsPath) after) = None
     ∧ (other ≠ fsPath →
        EndpointAnalyzer.getCachedEndpoints other
          (EndpointAnalyzer.clearCache (Some fsPath) after)
        = EndpointAnalyzer.getCachedEndpoints other after))
  ∧ EndpointAnalyzer.clearCache None after = ∅
  ∧ EndpointAnalyzer.clearCache (Some "") after = ∅.
Proof.
  cbn zeta. unfold EndpointAnalyzer.getCachedEndpoints.
  split; [|split; [|split; [|done]]].
  - intros output -> ->. cbn [analyzeDocument fst snd endpoints]. split.
    + apply lookup_insert_eq.
    + intros Hother. by apply lookup_insert_ne.
  - intros [->| ->]; [done|]. by destruct excluded.
  - intros Hpath. unfold EndpointAnalyzer.clearCache.
    apply truthy_spec in Hpath. rewrite Hpath. split.
    + apply lookup_delete_eq.
    + intros Hother. by apply lookup_delete_ne.
Qed.

Lemma groupByFile_from (l : list EndpointInfo) (f : string) :
  ∀ acc : gmap string (list EndpointInfo),
    foldl (λ byFile endpoint,
             <[file endpoint :=
                 default [] (byFile !! file endpoint) ++ [endpoint]]> byFile)
          acc l !! f
    = if decide (filter (λ e, file e = f) l = []) then acc !! f
      else Some (default [] (acc !! f) ++ filter (λ e, file e = f) l).
Proof.
  induction l as [|e l IH]; intros acc; [done|].
  cbn [foldl]. rewrite IH.
  destruct (decide (file e = f)) as [Hf|Hf].
  - rewrite (filter_cons_True _ e) by done. rewrite Hf, lookup_insert_eq.
    cbn [default].
    rewrite (decide_False (P := e :: _ = [])) by done.
    destruct (decide (filter _ l = [])) as [->|_]; [done|].
    unfold id. by rewrite <- app_assoc.
  - rewrite (filter_cons_False _ e) by done.
    by rewrite lookup_insert_ne by done.
Qed.

(** X10. After the workspace is analysed from the tool's output, the cache
    holds, for every file that has an endpoint in the output, exactly the
    endpoints of that file in the order of the output; a file with no
    endpoint in the output keeps the entry it had. Without a workspace
    folder, or with a null result, nothing is analysed and the cache is
    as it was. *)
Theorem analyzeWorkspace_cache (workspaceFolder : option string)
    (cliResult : option FaexJsonOutput)
    (cache : gmap string (list EndpointInfo)) :
  let analysis :=
    (EndpointAnalyzer.analyzeWorkspace workspaceFolder cliResult cache).1 in
  let after :=
    (EndpointAnalyzer.analyzeWorkspace workspaceFolder cliResult cache).2 in
  (∀ f,
      EndpointAnalyzer.getCachedEndpoints f after
      = if decide (filter (λ e, file e = f) (endpoints analysis) = [])
        then EndpointAnalyzer.getCachedEndpoints f cache
        else Some (filter (λ e, file e = f) (endpoints analysis)))
  ∧ (workspaceFolder = None ∨ cliResult = None →
     analysis = emptyAnalysis ∧ after = cache)
  ∧ (∀ folder output,
       workspaceFolder = Some folder → cliResult = Some output →
       endpoints analysis = convertEndpoint <$> out_endpoints output
       ∧ errors analysis
         = (λ msg, {| err_file := folder; err_line := None; message := msg |})
             <$> out_errors output).
Proof.
  cbn zeta. unfold EndpointAnalyzer.getCachedEndpoints.
  destruct workspaceFolder as [folder|], cliResult as [output|];
    cbn [EndpointAnalyzer.analyzeWorkspace fst snd endpoints emptyAnalysis].
  - split; [|split; [by intros [?|?]|by intros ? ? [= <-] [= <-]]].
    intros f. rewrite lookup_union.
    unfold EndpointAnalyzer.groupByFile. rewrite groupByFile_from.
    rewrite lookup_empty. cbn [default app].
    case_decide; by destruct (cache !! f).
  - by repeat split.
  - by repeat split.
  - by repeat split.
Qed.

(** ** Diagnostics *)

Lemma indexOfFrom_range (p s : list ascii) :
  ∀ i, 0 ≤ i → Js.indexOfFrom p s i = -1 ∨ i ≤ Js.indexOfFrom p s i.
Proof.
  induction s as [|c s IH]; intros i Hi; cbn [Js.indexOfFrom].
  - destruct (Js.startsWith p []); [by right|by left].
  - destruct (Js.startsWith p (c :: s)); [by right|].
    destruct (IH (i + 1) ltac:(lia)) as [->|?]; [by left|right; lia].
Qed.

Lemma jsLength_nonneg (s : string) : 0 ≤ Js.jsLength s.
Proof. unfold Js.jsLength. lia. Qed.

(** X11. [createDiagnostic] throws exactly when the exception's line number
    is below 1. Otherwise the diagnostic is on the line before that
    number and carries the endpoint and the exception; its columns are
    ordered and not negative; on a line past the end of the document the
    range is empty at column 0, and on a line without the word raise it
    spans the line. *)
Theorem createDiagnostic_range (endpoint : EndpointInfo)
    (exception : ExceptionLocation) (document : TextDocument) :
  (createDiagnostic endpoint exception document = Throws
   ↔ loc_line exception < 1)
  ∧ ∀ d,
      createDiagnostic endpoint exception document = Returns d →
      range_line d = loc_line exception - 1
      ∧ 0 ≤ range_startCol d ≤ range_endCol d
      ∧ metadata_endpoint d = endpoint
      ∧ metadata_exception d = exception
      ∧ (lineCount document ≤ range_line d →
         range_startCol d = 0 ∧ range_endCol d = 0)
      ∧ (∀ text,
           lineAt document (range_line d) = Some text →
           Js.indexOf text "raise" = -1 →
           range_startCol d = 0 ∧ range_endCol d = Js.jsLength text).
Proof.
  unfold createDiagnostic.
  set (line := loc_line exception - 1).
  assert (Hcols : ∀ text,
            0 ≤ Z.max 0 (Js.indexOf text "raise")
              ≤ Z.max 0 (if 0 <=? Js.indexOf text "raise"
                         then Js.indexOf text "raise"
                              + Js.jsLength
                                  ("raise " +:+ exceptionClass exception)
                         else Js.jsLength text)).
  { intros text.
    pose proof (jsLength_nonneg ("raise " +:+ exceptionClass exception)).
    pose proof (jsLength_nonneg text).
    destruct (Z.leb_spec 0 (Js.indexOf text "raise")); lia. }
  destruct (Z.ltb_spec line (lineCount document)) as [Hin|Hout].
  - destruct (lineAt document line) as [text|] eqn:Hline.
    + assert (0 ≤ line) by (apply (lineAt_is_Some document); by rewrite Hline).
      split; [split; [done|intros ?; exfalso; lia]|].
      intros d [= <-]. cbn. split; [done|]. split; [apply Hcols|].
      split; [done|]. split; [done|]. split; [lia|].
      intros text' Htext' Hraise. rewrite Hline in Htext'.
      injection Htext' as <-. rewrite Hraise. cbn.
      pose proof (jsLength_nonneg text). lia.
    + assert (¬ 0 ≤ line < lineCount document).
      { rewrite <- lineAt_is_Some, Hline. by intros [? ?]. }
      split; [split; [intros _; lia|done]|done].
  - assert (0 ≤ line) by (unfold lineCount in Hout; lia).
    split; [split; [done|intros ?; exfalso; lia]|].
    intros d [= <-]. cbn. split; [done|]. split; [done|]. split; [done|].
    split; [done|]. split; [done|].
    intros text Htext.
    assert (is_Some (lineAt document line)) as Hsome by (by eexists).
    apply lineAt_is_Some in Hsome. lia.
Qed.

Lemma collect_fmap_total {A B C : Type} (f : A → outcome B) (g : B → C)
    (h : A → C) (l : list A) :
  (∀ a, a ∈ l → ∃ b, f a = Returns b ∧ g b = h a) →
  ∃ bs, collect (f <$> l) = Returns bs ∧ g <$> bs = h <$> l.
Proof.
  induction l as [|a l IH]; intros Hall.
  - by exists [].
  - destruct (Hall a ltac:(by left)) as (b & Hb & Hg).
    destruct IH as (bs & Hbs & Hgs).
    { intros a' Ha'. apply Hall. by right. }
    exists (b :: bs). cbn [fmap list_fmap collect].
    rewrite Hb. change (list_fmap A (outcome B) f l) with (f <$> l).
    rewrite Hbs. split; [done|]. cbn. by rewrite Hg, Hgs.
Qed.

Lemma collect_throws {A : Type} (calls : list (outcome A)) :
  Throws ∈ calls → collect calls = Throws.
Proof.
  induction calls as [|call calls IH]; intros Hin.
  - by apply elem_of_nil in Hin.
  - destruct call as [a|]; [|done]. cbn [collect].
    apply elem_of_cons in Hin as [Hin|Hin]; [done|]. by rewrite IH.
Qed.

(** ** What a settled analysis publishes *)

Lemma diagnosticsFor_pairs (result : AnalysisResult)
    (document : TextDocument) :
  diagnosticsFor result document
  = collect ((λ p, createDiagnostic p.1 p.2 document)
               <$> undeclaredPairs result).
Proof.
  unfold diagnosticsFor, undeclaredPairs. f_equal.
  induction (endpoints result) as [|e l IH]; [done|].
  rewrite !bind_cons, fmap_app, <- IH. f_equal.
  rewrite <- list_fmap_compose. done.
Qed.

Lemma createDiagnostic_returns (endpoint : EndpointInfo)
    (exception : ExceptionLocation) (document : TextDocument) :
  1 ≤ loc_line exception →
  ∃ d, createDiagnostic endpoint exception document = Returns d
       ∧ metadata d = (endpoint, exception).
Proof.
  intros Hline. unfold createDiagnostic.
  set (line := loc_line exception - 1).
  destruct (Z.ltb_spec line (lineCount document)) as [Hin|Hout].
  - destruct (lineAt_is_Some document line) as [_ [text ->]]; [lia|].
    by eexists.
  - by eexists.
Qed.

Lemma createDiagnostic_throws (endpoint : EndpointInfo)
    (exception : ExceptionLocation) (document : TextDocument) :
  loc_line exception < 1 →
  createDiagnostic endpoint exception document = Throws.
Proof.
  intros Hline. unfold createDiagnostic.
  set (line := loc_line exception - 1).
  assert ((line <? lineCount document) = true) as ->.
  { apply Z.ltb_lt. unfold lineCount. lia. }
  destruct (lineAt document line) as [text|] eqn:Htext; [|done].
  assert (is_Some (lineAt document line)) as Hsome by (by eexists).
  apply lineAt_is_Some in Hsome. lia.
Qed.

(** X12. When the awaited analysis of a suspended call fulfils and every
    undeclared exception of the result has a line number of at least 1,
    the call ends with the result's endpoints cached for the file, one
    diagnostic per undeclared exception in the order of the endpoints,
    each carrying its endpoint and exception, and the file no longer in
    progress; what is kept for other files is untouched. *)
Theorem settle_publishes (fsPath : string) (document : TextDocument)
    (result : AnalysisResult) (m : Manager) :
  fsPath ∈ running m →
  Forall (λ p, 1 ≤ loc_line p.2) (undeclaredPairs result) →
  let after := settle fsPath document (Returns result) m in
  getEndpoints fsPath after = endpoints result
  ∧ (metadata <$> getDiagnostics fsPath after) = undeclaredPairs result
  ∧ Z.of_nat (length (getDiagnostics fsPath after))
    = getTotalUndeclared result
  ∧ (fsPath ∉ analysisInProgress after)
  ∧ ∀ other, other ≠ fsPath →
      getEndpoints other after = getEndpoints other m
      ∧ getDiagnostics other after = getDiagnostics other m.
Proof.
  intros Hrun Hlines after. subst after. unfold settle.
  rewrite bool_decide_eq_true_2 by done.
  unfold publish. rewrite diagnosticsFor_pairs.
  destruct (collect_fmap_total
              (λ p, createDiagnostic p.1 p.2 document) metadata id
              (undeclaredPairs result)) as (ds & -> & Hds).
  { intros [e x] Hin. rewrite Forall_forall in Hlines.
    apply (createDiagnostic_returns e x document), (Hlines _ Hin). }
  rewrite list_fmap_id in Hds.
  unfold getEndpoints, getDiagnostics. cbn.
  rewrite !lookup_insert_eq. cbn.
  split; [done|]. split; [done|]. split.
  { rewrite <- (length_fmap metadata), Hds.
    unfold getTotalUndeclared, undeclaredPairs.
    rewrite total_from, Z.add_0_l. do 2 f_equal.
    induction (endpoints result) as [|e l IH]; [done|].
    by rewrite !bind_cons, !length_app, length_fmap, IH. }
  split.
  { intros Hin. apply elem_of_difference in Hin as [_ Hnot].
    apply Hnot. by apply elem_of_singleton. }
  intros other Hother. by rewrite !lookup_insert_ne by done.
Qed.

Lemma settle_publishes_witness :
  getEndpoints "app/main.py"
    (settle "app/main.py" ["@app.get()"; "def read_item():"; "    raise x"]
       (Returns (sampleResult 3)) sampleManager)
  = endpoints (sampleResult 3).
Proof.
  apply (settle_publishes "app/main.py"
           ["@app.get()"; "def read_item():"; "    raise x"]
           (sampleResult 3) sampleManager).
  - by constructor.
  - cbn. constructor; [cbn; lia|constructor].
Defined.

(** X13. A suspended call whose analysis rejects leaves the cache and the
    diagnostics as they were. One whose analysis fulfils with an
    undeclared exception on a line number below 1 has already cached the
    result's endpoints when the diagnostic throws, and leaves the
    diagnostics as they were. Both take the file out of the in-progress
    set. *)
Theorem settle_failure (fsPath : string) (document : TextDocument)
    (m : Manager) :
  fsPath ∈ running m →
  (let after := settle fsPath document Throws m in
   endpointCache after = endpointCache m
   ∧ diagnosticCollection after = diagnosticCollection m
   ∧ fsPath ∉ analysisInProgress after)
  ∧ ∀ result,
      Exists (λ p, loc_line p.2 < 1) (undeclaredPairs result) →
      let after := settle fsPath document (Returns result) m in
      getEndpoints fsPath after = endpoints result
      ∧ diagnosticCollection after = diagnosticCollection m
      ∧ fsPath ∉ analysisInProgress after.
Proof.
  intros Hrun.
  assert (Hout : ∀ s : gset string, fsPath ∉ s ∖ {[fsPath]}).
  { intros s Hin. apply elem_of_difference in Hin as [_ Hnot].
    apply Hnot. by apply elem_of_singleton. }
  unfold settle. rewrite bool_decide_eq_true_2 by done.
  split; [cbn; by auto|].
  intros result Hbad. cbn zeta.
  unfold publish. rewrite diagnosticsFor_pairs, collect_throws.
  - unfold getEndpoints. cbn. rewrite lookup_insert_eq. by auto.
  - apply Exists_exists in Hbad as ([e x] & Hin & Hline).
    apply list_elem_of_fmap. exists (e, x).
    split; [|done]. symmetry. by apply createDiagnostic_throws.
Qed.

Lemma settle_failure_witness :
  getEndpoints "app/main.py"
    (settle "app/main.py" ["@app.get()"] (Returns (sampleResult 0))
       sampleManager)
  = endpoints (sampleResult 0)
  ∧ diagnosticCollection
      (settle "app/main.py" ["@app.get()"] (Returns (sampleResult 0))
         sampleManager)
    = diagnosticCollection sampleManager.
Proof.
  destruct (settle_failure "app/main.py" ["@app.get()"] sampleManager)
    as [_ Hresult].
  - by constructor.
  - destruct (Hresult (sampleResult 0)) as (Hcache & Hdiags & _).
    + apply Exists_cons_hd. cbn. lia.
    + by split.
Defined.

(** ** The promise of a run *)

Section CliSettling.

Variable JSON_parse : string → option (option FaexJsonOutput).

Lemma resolve_resolved (v : option FaexJsonOutput) (st : CliRun) :
  is_Some (resolved (resolve v st))
  ∧ ∀ first, resolved st = Some first →
             resolved (resolve v st) = Some first.
Proof.
  unfold resolve. cbn. destruct (resolved st); split; try done.
  all: by eexists.
Qed.

Lemma onEvent_resolved (st : CliRun) (ev : ProcessEvent) :
  (∀ first, resolved st = Some first →
            resolved (onEvent JSON_parse st ev) = Some first)
  ∧ (isData ev = true →
     resolved (onEvent JSON_parse st ev) = resolved st)
  ∧ (isData ev = false → is_Some (resolved (onEvent JSON_parse st ev))).
Proof.
  destruct ev as [[data|data]|code|msg]; cbn [onEvent isData].
  - done.
  - done.
  - split; [|split; [done|intros _]].
    + intros first Hfirst.
      destruct (truthy (stdout st)); [destruct (JSON_parse (stdout st))|
                                      destruct (truthy (stderr st))];
        by apply resolve_resolved.
    + destruct (truthy (stdout st)); [destruct (JSON_parse (stdout st))|
                                      destruct (truthy (stderr st))];
        by apply resolve_resolved.
  - split; [|split; [done|intros _]].
    + intros first Hfirst. by apply resolve_resolved.
    + by apply resolve_resolved.
Qed.

Lemma foldl_onEvent_resolved (events : list ProcessEvent) :
  ∀ st first,
    resolved st = Some first →
    resolved (foldl (onEvent JSON_parse) st events) = Some first.
Proof.
  induction events as [|ev events IH]; intros st first Hfirst; [done|].
  cbn [foldl]. apply IH. by apply onEvent_resolved.
Qed.

Lemma foldl_onEvent_pending (events : list ProcessEvent) :
  ∀ st,
    resolved st = None →
    (resolved (foldl (onEvent JSON_parse) st events) = None
     ↔ forallb isData events = true).
Proof.
  induction events as [|ev events IH]; intros st Hst; [done|].
  cbn [foldl forallb]. rewrite andb_true_iff.
  destruct (onEvent_resolved st ev) as (_ & Hdata & Hother).
  destruct (isData ev) eqn:Hev.
  - rewrite IH by (by rewrite Hdata). tauto.
  - destruct Hother as [first Hfirst]; [done|].
    rewrite (foldl_onEvent_resolved events _ first Hfirst).
    split; [done|by intros [? _]].
Qed.

(** X14. The promise of [runFaexCli] is pending exactly as long as the
    process has emitted nothing but data, and once it is resolved no
    later event of the process changes its value. *)
Theorem runFaexCli_settles_once (events : list ProcessEvent) :
  (resolved (runFaexCli JSON_parse events) = None
   ↔ forallb isData events = true)
  ∧ ∀ first more,
      resolved (runFaexCli JSON_parse events) = Some first →
      resolved (runFaexCli JSON_parse (events ++ more)) = Some first.
Proof.
  unfold runFaexCli. split.
  - by apply foldl_onEvent_pending.
  - intros first more Hfirst. rewrite foldl_app.
    by apply foldl_onEvent_resolved.
Qed.

Lemma foldl_onEvent_shown (events : list ProcessEvent) :
  ∀ st,
    shownErrors (foldl (onEvent JSON_parse) st events)
    = shownErrors st ++ errorTexts events.
Proof.
  induction events as [|ev events IH]; intros st.
  - cbn. by rewrite app_nil_r.
  - cbn [foldl]. rewrite IH. unfold errorTexts. rewrite bind_cons.
    rewrite app_assoc. f_equal.
    destruct ev as [[data|data]|code|msg]; cbn [onEvent].
    + cbn. by rewrite app_nil_r.
    + cbn. by rewrite app_nil_r.
    + rewrite app_nil_r.
      destruct (truthy (stdout st)); [destruct (JSON_parse (stdout st))|
                                      destruct (truthy (stderr st))];
        reflexivity.
    + reflexivity.
Qed.

(** X15. [runFaexCli] shows the user one message for each [error] event of
    the process, naming the error and the way to install the tool, and no
    message for anything else: not for output that does not parse, nor
    for text on the error stream. A run whose first event other than
    data is an [error] resolves with [null]. *)
Theorem runFaexCli_shown_errors (events : list ProcessEvent)
    (chunks : list DataEvent) (errMessage : string)
    (more : list ProcessEvent) :
  shownErrors (runFaexCli JSON_parse events) = errorTexts events
  ∧ resolved (runFaexCli JSON_parse
                ((OnData <$> chunks) ++ OnError errMessage :: more))
    = Some None.
Proof.
  split; [apply foldl_onEvent_shown|].
  unfold runFaexCli.
  rewrite foldl_app. cbn [foldl].
  apply foldl_onEvent_resolved.
  assert (resolved (foldl (onEvent JSON_parse) cliStart (OnData <$> chunks))
          = None) as Hpending.
  { apply foldl_onEvent_pending; [done|].
    induction chunks as [|d chunks IH]; [done|]. by cbn. }
  cbn [onEvent]. unfold resolve. cbn. by rewrite Hpending.
Qed.

End CliSettling.

(** ** Commands and code lenses *)

(** X16. [faex.checkCurrentFile] on a Python document reports the
    diagnostics the file had before the command: the analysis it starts
    is not awaited, so what the analysis finds is not in the message. The
    one change it can see is its own clearing of an excluded file, whose
    message is then that nothing was found. *)
Theorem checkCurrentFile_reads_before (config : FaexConfig)
    (fsPath : string) (excluded : option bool) (m : Manager) :
  let run := checkCurrentFile config (Some ("python", fsPath)) excluded m in
  (enable config = true ∧ excluded = Some true →
   run.2 = foundMessage 0 ∧ getDiagnostics fsPath run.1 = []
   ∧ getEndpoints fsPath run.1 = [])
  ∧ (¬ (enable config = true ∧ excluded = Some true) →
     run.2 = foundMessage (length (getDiagnostics fsPath m))
     ∧ diagnosticCollection run.1 = diagnosticCollection m
     ∧ endpointCache run.1 = endpointCache m).
Proof.
  cbn zeta. unfold checkCurrentFile.
  change (negb ("python" =? "python")%string) with false. cbn [fst snd].
  unfold request. change ("python" =? "python")%string with true.
  cbn [negb]. split.
  - intros [-> ->]. cbn [negb].
    unfold getDiagnostics, getEndpoints, clearDiagnostics. cbn.
    by rewrite !lookup_delete_eq.
  - intros Hnot. destruct (enable config); [|done]. cbn [negb].
    destruct excluded as [[|]|]; [by destruct Hnot| |done].
    by case_bool_decide.
Qed.

Lemma substringFrom_label (status : ascii) (text : string) :
  substringFrom (String status (" " +:+ text)) 2 = text.
Proof.
  unfold substringFrom, Js.str, Js.chars. cbn.
  apply string_of_list_ascii_of_string.
Qed.

Lemma find_first {A : Type} (P : A → bool) (l : list A) :
  ∀ i x,
    l !! i = Some x → P x = true →
    ∃ j y, find P l = Some y ∧ l !! j = Some y ∧ (j ≤ i)%nat
           ∧ P y = true
           ∧ ∀ k z, (k < j)%nat → l !! k = Some z → P z = false.
Proof.
  induction l as [|a l IH]; intros i x Hi Hx; [done|].
  cbn [find]. destruct (P a) eqn:Ha.
  - exists 0%nat, a. repeat split; try done; [lia|]. intros k z Hk. lia.
  - destruct i as [|i]; [cbn in Hi; congruence|].
    destruct (IH i x Hi Hx) as (j & y & Hfind & Hj & Hle & Hy & Hfirst).
    exists (S j), y. repeat split; try done; [lia|].
    intros [|k] z Hk Hz; [cbn in Hz; congruence|].
    apply (Hfirst k z); [lia|done].
Qed.

(** X17. Picking the item of an endpoint in [faex.showAllExceptions] finds
    the first endpoint of the file with that endpoint's method and path:
    the text after the glyph and the space of the label is matched
    against each endpoint in turn. It is the endpoint itself when no
    earlier endpoint has the same method and path. *)
Theorem findSelected_first (okGlyph warnGlyph : ascii)
    (endpoints : list EndpointInfo) (i : nat) (ep : EndpointInfo) :
  endpoints !! i = Some ep →
  ∃ j found,
    findSelected endpoints (quickPickItem okGlyph warnGlyph ep) = Some found
    ∧ endpoints !! j = Some found
    ∧ (j ≤ i)%nat
    ∧ route found = route ep
    ∧ (∀ k other, (k < j)%nat → endpoints !! k = Some other →
                  route other ≠ route ep)
    ∧ ((∀ k other, (k < i)%nat → endpoints !! k = Some other →
                   route other ≠ route ep) →
       found = ep).
Proof.
  intros Hi. unfold findSelected. cbn [quickPickItem label].
  rewrite substringFrom_label.
  destruct (find_first (λ e, String.eqb (route e) (route ep)) endpoints i ep
              Hi (String.eqb_refl _))
    as (j & found & Hfind & Hj & Hle & Hfound & Hfirst).
  apply String.eqb_eq in Hfound.
  exists j, found. split; [done|]. split; [done|]. split; [done|].
  split; [done|]. split.
  - intros k other Hk Hother. apply String.eqb_neq.
    by apply (Hfirst k other).
  - intros Hunique.
    destruct (decide (j = i)) as [->|Hne]; [congruence|].
    exfalso. apply (Hunique j found); [lia|done|done].
Qed.

Lemma findSelected_first_witness :
  ∃ j found,
    findSelected [sampleEndpoint None [] None]
      (quickPickItem "v" "!" (sampleEndpoint None [] None)) = Some found
    ∧ [sampleEndpoint None [] None] !! j = Some found.
Proof.
  destruct (findSelected_first "v" "!" [sampleEndpoint None [] None] 0
              (sampleEndpoint None [] None) eq_refl)
    as (j & found & Hfind & Hj & _).
  by exists j, found.
Defined.



